(** * The teapot viewer: OBJ loader and camera controller of [main.cpp]

    A shallow embedding of the two pieces of program logic in
    [src/main.cpp]:

    - [loadOBJ] (lines 76-135): the line-oriented reader of [v], [vn] and
      [f] records, with its fan triangulation;
    - the per-frame camera update of [main] (lines 255-272): the rotation
      and zoom keys followed by [glm::clamp];
    - the render loop of [main] around it (lines 246-312): the elapsed
      time of a pass and the close flag.

    C++ [float] is IEEE-754 binary32, taken from the standard library's
    [SpecFloat] at precision 24 and maximal exponent 128.  [unsigned int]
    and [size_t] are integers in [Z] with their wrap-around written out.
    A call of [loadOBJ] ends in one of three ways: it returns, it leaves
    through an exception nobody catches ([std::stoul]), or it performs an
    unchecked out-of-range [operator[]] on a vector (undefined behaviour).
    The triangulation loop is run on fuel; [fan_fuel] shows that the fuel
    given to it is never used up. *)

From Stdlib Require Import ZArith List String Ascii Bool Lia.
From Stdlib Require Import Floats.SpecFloat.
Import ListNotations.

Open Scope Z_scope.

(* ================================================================== *)
(** * Outcomes of a run *)

(** Exceptions thrown by the library calls of [loadOBJ]. *)
Inductive exn : Type :=
| invalid_argument
| out_of_range.

(** The three vectors that [loadOBJ] indexes with the unchecked
    [operator[]]. *)
Inductive ub_site : Type :=
| oob_faceVerts
| oob_faceNormals
| oob_tempNormals.

Inductive outcome (A : Type) : Type :=
| Ok (a : A)
| Throw (e : exn)
| Undefined (u : ub_site)
| OutOfFuel.

Arguments Ok {A} a.
Arguments Throw {A} e.
Arguments Undefined {A} u.
Arguments OutOfFuel {A}.

Definition bind {A B : Type} (r : outcome A) (k : A -> outcome B) : outcome B :=
  match r with
  | Ok a => k a
  | Throw e => Throw e
  | Undefined u => Undefined u
  | OutOfFuel => OutOfFuel
  end.

Notation "x <- r ;; k" := (bind r (fun x => k))
  (at level 61, r at next level, right associativity).
Notation "' p <- r ;; k" := (bind r (fun p => k))
  (at level 61, p pattern, r at next level, right associativity).

(** A run is fatal when an exception escapes [loadOBJ]: [main] has no
    handler, so the program terminates. *)
Definition fatal {A : Type} (r : outcome A) : Prop := exists e, r = Throw e.

Definition returns {A : Type} (r : outcome A) : Prop := exists a, r = Ok a.

(* ================================================================== *)
(** * Machine integers *)

(** The LP64 widths: [size_t] and [unsigned long] have 64 bits,
    [unsigned int] has 32. *)
Definition size_t_modulus : Z := 2 ^ 64.
Definition ulong_modulus : Z := 2 ^ 64.
Definition uint_modulus : Z := 2 ^ 32.

(** [std::string::npos], the largest [size_t]. *)
Definition npos : Z := size_t_modulus - 1.

Definition to_size_t (z : Z) : Z := z mod size_t_modulus.
Definition to_ulong (z : Z) : Z := z mod ulong_modulus.
Definition to_uint (z : Z) : Z := z mod uint_modulus.

(* ================================================================== *)
(** * std::string *)

Definition size (s : string) : Z := Z.of_nat (String.length s).

(** [s.substr(pos, count)]: throws when [pos > size()], otherwise the
    characters from [pos], at most [count] of them. *)
Definition substr (s : string) (pos count : Z) : outcome string :=
  if size s <? pos then Throw out_of_range
  else Ok (substring (Z.to_nat pos) (Z.to_nat (Z.min count (size s - pos))) s).

Fixpoint find_char (c : ascii) (s : string) : option nat :=
  match s with
  | EmptyString => None
  | String a s' =>
      if Ascii.eqb a c then Some O
      else match find_char c s' with
           | Some k => Some (S k)
           | None => None
           end
  end.

(** [s.find(c, pos)]: the first position at or after [pos] holding [c],
    or [npos]. *)
Definition find (s : string) (c : ascii) (pos : Z) : Z :=
  if size s <=? pos then npos
  else match find_char c (substring (Z.to_nat pos) (String.length s) s) with
       | Some k => pos + Z.of_nat k
       | None => npos
       end.

(** [isspace] in the "C" locale. *)
Definition isspace (c : ascii) : bool :=
  let n := nat_of_ascii c in
  (Nat.eqb n 32 || (Nat.leb 9 n && Nat.leb n 13))%bool.

Fixpoint skip_ws (s : string) : string :=
  match s with
  | EmptyString => EmptyString
  | String c s' => if isspace c then skip_ws s' else s
  end.

(** Cut a string at every character satisfying [sep]; the pieces may be
    empty and there is always at least one. *)
Fixpoint split_on (sep : ascii -> bool) (s : string) : list string :=
  match s with
  | EmptyString => [EmptyString]
  | String c s' =>
      if sep c then EmptyString :: split_on sep s'
      else match split_on sep s' with
           | piece :: rest => String c piece :: rest
           | [] => [String c EmptyString]
           end
  end.

Definition nonempty (s : string) : bool :=
  match s with EmptyString => false | String _ _ => true end.

(** [while (ss >> token)] on a string stream: the maximal runs of
    non-space characters, in order. *)
Definition tokens (s : string) : list string :=
  filter nonempty (split_on isspace s).

Definition is_newline (c : ascii) : bool := Nat.eqb (nat_of_ascii c) 10.

Fixpoint drop_last_if_empty (l : list string) : list string :=
  match l with
  | [] => []
  | [s] => if nonempty s then [s] else []
  | s :: l' => s :: drop_last_if_empty l'
  end.

(** [while (std::getline(file, line))]: the text between newlines; text
    after the last newline is a line when it is not empty. *)
Definition getlines (text : string) : list string :=
  drop_last_if_empty (split_on is_newline text).

(** What [line.substr(k)] returns on a line of at least [k] characters. *)
Definition rest_after (k : Z) (line : string) : string :=
  substring (Z.to_nat k) (Z.to_nat (Z.min npos (size line - k))) line.

(* ================================================================== *)
(** * std::stoul *)

Definition digit_of (c : ascii) : option Z :=
  let n := nat_of_ascii c in
  if (Nat.leb 48 n && Nat.leb n 57)%bool then Some (Z.of_nat n - 48) else None.

(** The longest prefix of decimal digits with its value; [None] when the
    string does not start with a digit. *)
Fixpoint read_digits (acc : option Z) (s : string) : option Z * string :=
  match s with
  | EmptyString => (acc, s)
  | String c s' =>
      match digit_of c with
      | Some d =>
          read_digits (Some (10 * match acc with Some a => a | None => 0 end + d)) s'
      | None => (acc, s)
      end
  end.

Definition read_sign (s : string) : bool * string :=
  match s with
  | String "-" s' => (true, s')
  | String "+" s' => (false, s')
  | _ => (false, s)
  end.

(** [std::stoul(str)], that is [strtoul(str, &end, 10)] followed by the
    two checks of the wrapper: no digits is [std::invalid_argument], a
    value beyond [ULONG_MAX] is [std::out_of_range].  Text after the
    digits is ignored; a minus sign negates in [unsigned long]. *)
Definition stoul (str : string) : outcome Z :=
  let (neg, s) := read_sign (skip_ws str) in
  match fst (read_digits None s) with
  | None => Throw invalid_argument
  | Some v =>
      if ulong_modulus <=? v then Throw out_of_range
      else Ok (if neg then to_ulong (- v) else v)
  end.

(* ================================================================== *)
(** * Floats, vectors and the mesh *)

(** C++ [float]: binary32, that is precision 24 and exponents below
    128, with the operations rounding to nearest, ties to even. *)
Definition float : Type := spec_float.

Definition prec : Z := 24.
Definition emax : Z := 128.

Definition fadd : float -> float -> float := SFadd prec emax.
Definition fsub : float -> float -> float := SFsub prec emax.
Definition fmul : float -> float -> float := SFmul prec emax.
Definition fdiv : float -> float -> float := SFdiv prec emax.
Definition fltb : float -> float -> bool := SFltb.
Definition fleb : float -> float -> bool := SFleb.

(** The binary32 value nearest to an integer. *)
Definition float_of_Z (z : Z) : float := binary_normalize prec emax z 0 false.

(** [glm::vec3]. *)
Record vec3 : Type := mkvec3 { x : float; y : float; z : float }.

(** [struct Mesh]. *)
Record Mesh : Type := mkMesh {
  vertices : list float;
  normals : list float;
  indices : list Z;
  edgeIndices : list Z
}.

Definition empty_mesh : Mesh := mkMesh [] [] [] [].

Definition push_index (m : Mesh) (i : Z) : Mesh :=
  mkMesh (vertices m) (normals m) (indices m ++ [i]) (edgeIndices m).

Definition push_normal (m : Mesh) (f : float) : Mesh :=
  mkMesh (vertices m) (normals m ++ [f]) (indices m) (edgeIndices m).

Definition push_vertex (m : Mesh) (f : float) : Mesh :=
  mkMesh (vertices m ++ [f]) (normals m) (indices m) (edgeIndices m).

(** [vec[i]] without bounds check: out of range is undefined behaviour,
    recorded with the vector it happened on. *)
Definition at_ {A : Type} (site : ub_site) (vec : list A) (i : Z) : outcome A :=
  if i <? 0 then Undefined site
  else match nth_error vec (Z.to_nat i) with
       | Some a => Ok a
       | None => Undefined site
       end.

Definition vsize {A : Type} (vec : list A) : Z := Z.of_nat (List.length vec).

(* ================================================================== *)
(** * Face corners *)

(** One corner token of a face line (lines 102-105).  [pos1 + 1] is
    computed in [size_t]: when the token has no slash, [pos1] is [npos]
    and the second search starts again at position 0. *)
Definition read_corner (token : string) : outcome (Z * Z) :=
  let pos1 := find token "/" 0 in
  let pos2 := find token "/" (to_size_t (pos1 + 1)) in
  s1 <- substr token 0 pos1 ;;
  r1 <- stoul s1 ;;
  let v := to_uint (to_ulong (r1 - 1)) in
  s2 <- substr token (to_size_t (pos2 + 1)) npos ;;
  r2 <- stoul s2 ;;
  let n := to_uint (to_ulong (r2 - 1)) in
  Ok (v, n).

(** The token loop (lines 101-108), pushing onto the two per-face
    vectors. *)
Fixpoint read_corners (toks : list string) (faceVerts faceNormals : list Z)
  : outcome (list Z * list Z) :=
  match toks with
  | [] => Ok (faceVerts, faceNormals)
  | token :: rest =>
      '(v, n) <- read_corner token ;;
      read_corners rest (faceVerts ++ [v]) (faceNormals ++ [n])
  end.

(* ================================================================== *)
(** * Triangulation *)

(** The inner loop over [j] (lines 117-122); [js] is [[0; 1; 2]]. *)
Fixpoint add_normals (tempNormals : list vec3) (faceNormals : list Z)
  (js : list Z) (m : Mesh) : outcome Mesh :=
  match js with
  | [] => Ok m
  | j :: js' =>
      n <- at_ oob_faceNormals faceNormals j ;;
      normal <- at_ oob_tempNormals tempNormals n ;;
      add_normals tempNormals faceNormals js'
        (push_normal (push_normal (push_normal m (x normal)) (y normal)) (z normal))
  end.

(** The loop over [i] (lines 111-123), from the value [i] on.  The bound
    [faceVerts.size() - 1] is a [size_t] and wraps for an empty vector. *)
Fixpoint fan (fuel : nat) (tempNormals : list vec3) (faceVerts faceNormals : list Z)
  (i : Z) (m : Mesh) : outcome Mesh :=
  if i <? to_size_t (vsize faceVerts - 1) then
    match fuel with
    | O => OutOfFuel
    | S fuel' =>
        v0 <- at_ oob_faceVerts faceVerts 0 ;;
        vi <- at_ oob_faceVerts faceVerts i ;;
        vi1 <- at_ oob_faceVerts faceVerts (to_size_t (i + 1)) ;;
        m' <- add_normals tempNormals faceNormals [0; 1; 2]
                (push_index (push_index (push_index m v0) vi) vi1) ;;
        fan fuel' tempNormals faceVerts faceNormals (to_size_t (i + 1)) m'
    end
  else Ok m.

(** An iteration reads [faceVerts[i + 1]], so the loop ends, one way or
    another, within [faceVerts.size() + 1] rounds. *)
Definition triangulate (tempNormals : list vec3) (faceVerts faceNormals : list Z)
  (m : Mesh) : outcome Mesh :=
  fan (S (List.length faceVerts)) tempNormals faceVerts faceNormals 1 m.

(* ================================================================== *)
(** * The loader *)

Record istringstream : Type := mkstream { buf : string; failbit : bool }.

Record loader : Type := mkloader {
  mesh : Mesh;
  tempVertices : list vec3;
  tempNormals : list vec3
}.

Definition flatten (v : vec3) : list float := [x v; y v; z v].

(** Lines 128-132. *)
Definition copy_vertices (vs : list vec3) (m : Mesh) : Mesh :=
  fold_left
    (fun acc v => push_vertex (push_vertex (push_vertex acc (x v)) (y v)) (z v))
    vs m.

Section Loader.

(** The conversion behind [operator>>(float&)], [std::num_get::get]
    of the C++ library: on input that starts with a non-space
    character it gives the value stored into the variable (zero when
    no number can be read), whether [failbit] is raised, and the input
    left unread. *)
Variable num_get : string -> float * bool * string.

(** A default-constructed [glm::vec3]. *)
Variable vec3_default : vec3.

(** [ss >> f]: nothing happens on a failed stream; the sentry skips
    white space and fails at the end of the input, leaving the
    variable as it was. *)
Definition extract_float (ss : istringstream) (old : float)
  : istringstream * float :=
  if failbit ss then (ss, old)
  else match skip_ws (buf ss) with
       | EmptyString => (mkstream EmptyString true, old)
       | rest =>
           let '(v, bad, rest') := num_get rest in
           (mkstream rest' bad, v)
       end.

(** [glm::vec3 v; ss >> v.x >> v.y >> v.z;] on a stream over [text]. *)
Definition read_vec3 (text : string) : vec3 :=
  let '(ss1, vx) := extract_float (mkstream text false) (x vec3_default) in
  let '(ss2, vy) := extract_float ss1 (y vec3_default) in
  let '(_, vz) := extract_float ss2 (z vec3_default) in
  mkvec3 vx vy vz.

(** The body of the face branch (lines 97-123) on the text after "f ". *)
Definition face_line (rest : string) (st : loader) : outcome loader :=
  '(faceVerts, faceNormals) <- read_corners (tokens rest) [] [] ;;
  m' <- triangulate (tempNormals st) faceVerts faceNormals (mesh st) ;;
  Ok (mkloader m' (tempVertices st) (tempNormals st)).

(** One round of the [getline] loop (lines 84-124). *)
Definition do_line (line : string) (st : loader) : outcome loader :=
  p <- substr line 0 2 ;;
  if (p =? "v ")%string then
    rest <- substr line 2 npos ;;
    Ok (mkloader (mesh st) (tempVertices st ++ [read_vec3 rest]) (tempNormals st))
  else
    p <- substr line 0 3 ;;
    if (p =? "vn ")%string then
      rest <- substr line 3 npos ;;
      Ok (mkloader (mesh st) (tempVertices st) (tempNormals st ++ [read_vec3 rest]))
    else
      p <- substr line 0 2 ;;
      if (p =? "f ")%string then
        rest <- substr line 2 npos ;;
        face_line rest st
      else Ok st.

Fixpoint do_lines (lines : list string) (st : loader) : outcome loader :=
  match lines with
  | [] => Ok st
  | line :: more => st' <- do_line line st ;; do_lines more st'
  end.

Definition initial_loader : loader := mkloader empty_mesh [] [].

(** [loadOBJ] on the lines of the file. *)
Definition load_lines (lines : list string) : outcome Mesh :=
  st <- do_lines lines initial_loader ;;
  Ok (copy_vertices (tempVertices st) (mesh st)).

(** [loadOBJ] on the text of the file.  A file that cannot be opened
    behaves as the empty text: the first [getline] fails. *)
Definition loadOBJ (text : string) : outcome Mesh :=
  load_lines (getlines text).

(** The position read from a [v] line and the normal read from a [vn]
    line. *)
Definition position_of (line : string) : vec3 :=
  read_vec3 (rest_after 2 line).

Definition staged_normal_of (line : string) : vec3 :=
  read_vec3 (rest_after 3 line).

End Loader.

(** A reader of integer literals, enough to run the loader on sources
    whose coordinates are whole numbers: an optional sign and decimal
    digits, converted to the nearest binary32 value. *)
Definition integer_get (s : string) : float * bool * string :=
  let (neg, s1) := read_sign s in
  match read_digits None s1 with
  | (Some v, rest) =>
      (if neg then SFopp (float_of_Z v) else float_of_Z v, false, rest)
  | (None, rest) => (S754_zero false, true, rest)
  end.

Definition vec3_zero : vec3 :=
  mkvec3 (S754_zero false) (S754_zero false) (S754_zero false).

Definition newline : string := String (ascii_of_nat 10) EmptyString.

Definition unlines (ls : list string) : string :=
  fold_right (fun l acc => (l ++ newline ++ acc)%string) EmptyString ls.

(* ================================================================== *)
(** * The camera *)

(** The literals [2.0f], [10.0f], [1.5f], [40.0f] and [5.196f] of [main],
    as the binary32 values nearest to them. *)
Definition rotationSpeed : float := Eval vm_compute in float_of_Z 2.
Definition zoomSpeed : float := Eval vm_compute in float_of_Z 10.
Definition minDistance : float :=
  Eval vm_compute in fdiv (float_of_Z 3) (float_of_Z 2).
Definition maxDistance : float := Eval vm_compute in float_of_Z 40.
Definition initialDistance : float :=
  Eval vm_compute in fdiv (float_of_Z 5196) (float_of_Z 1000).

(** [glm::max], [glm::min] and [glm::clamp] on scalars, as GLM's
    [func_common.inl] writes them:
    [max(x, y) = (x < y) ? y : x], [min(x, y) = (y < x) ? y : x] and
    [clamp(x, lo, hi) = min(max(x, lo), hi)]. *)
Definition glm_max (a b : float) : float := if fltb a b then b else a.
Definition glm_min (a b : float) : float := if fltb b a then b else a.
Definition glm_clamp (v lo hi : float) : float := glm_min (glm_max v lo) hi.

Record Camera : Type := mkCamera {
  angleY : float;
  angleZ : float;
  cameraDistance : float
}.

(** Which of the six control keys [glfwGetKey] reports as pressed. *)
Record Keys : Type := mkKeys {
  key_A : bool;
  key_D : bool;
  key_W : bool;
  key_S : bool;
  key_Q : bool;
  key_E : bool
}.

Definition initial_camera : Camera :=
  mkCamera (S754_zero false) (S754_zero false) initialDistance.

(** Lines 256-259 and 260-263: one angle under its two keys. *)
Definition rotate (plus minus : bool) (deltaTime angle : float) : float :=
  let angle := if plus then fadd angle (fmul rotationSpeed deltaTime) else angle in
  if minus then fsub angle (fmul rotationSpeed deltaTime) else angle.

(** Lines 266-269: the distance under the two zoom keys, before the
    clamp. *)
Definition zoom (keys : Keys) (deltaTime distance : float) : float :=
  let distance :=
    if key_Q keys then fsub distance (fmul zoomSpeed deltaTime) else distance in
  if key_E keys then fadd distance (fmul zoomSpeed deltaTime) else distance.

(** Lines 256-272: the camera after one frame. *)
Definition update_camera (keys : Keys) (deltaTime : float) (c : Camera) : Camera :=
  mkCamera
    (rotate (key_A keys) (key_D keys) deltaTime (angleY c))
    (rotate (key_W keys) (key_S keys) deltaTime (angleZ c))
    (glm_clamp (zoom keys deltaTime (cameraDistance c)) minDistance maxDistance).

(** A run of frames, each with its keys and elapsed time. *)
Fixpoint run_frames (frames : list (Keys * float)) (c : Camera) : Camera :=
  match frames with
  | [] => c
  | (keys, deltaTime) :: more => run_frames more (update_camera keys deltaTime c)
  end.

Definition in_range (d : float) : bool :=
  (fleb minDistance d && fleb d maxDistance)%bool.

Definition is_nan (f : float) : bool :=
  match f with S754_nan => true | _ => false end.

Definition is_zero (f : float) : bool :=
  match f with S754_zero _ => true | _ => false end.

(** Finite in the sense of [std::isfinite]: neither infinite nor NaN. *)
Definition is_finite (f : float) : bool :=
  match f with S754_zero _ | S754_finite _ _ _ => true | _ => false end.

(** A float that is not a NaN and carries the sign [s]. *)
Definition signed (s : bool) (f : float) : Prop :=
  match f with
  | S754_nan => False
  | S754_zero s' | S754_infinity s' | S754_finite s' _ _ => s' = s
  end.

Definition negative_zero (f : float) : bool :=
  match f with S754_zero true => true | _ => false end.

(** Zero of either sign, a positive finite float or plus infinity. *)
Definition nonneg (f : float) : Prop :=
  match f with
  | S754_zero _ => True
  | S754_finite false _ _ => True
  | S754_infinity false => True
  | _ => False
  end.

(** The same number: the same representation, or two zeros, which differ
    at most in sign and compare equal. *)
Definition same_value (a b : float) : Prop :=
  a = b \/ (is_zero a = true /\ is_zero b = true).

(* ================================================================== *)
(** * Vocabulary of the statements *)

(** The fan of a polygon, in the words of the specification: for corners
    [c0 .. c(n-1)] the triangles [(c0, ci, c(i+1))] for [i = 1 .. n-2]. *)
Definition fan_triangles {A : Type} (d : A) (cs : list A) : list (A * A * A) :=
  map (fun i => (nth 0 cs d, nth i cs d, nth (S i) cs d))
      (seq 1 (List.length cs - 2)).

Definition triple {A : Type} (t : A * A * A) : list A :=
  let '(a, b, c) := t in [a; b; c].

(** The staging normal a corner refers to. *)
Definition normal_of (tempNormals : list vec3) (n : Z) : vec3 :=
  nth (Z.to_nat n) tempNormals vec3_zero.

Definition valid_normal (tempNormals : list vec3) (n : Z) : Prop :=
  0 <= n < vsize tempNormals.

(** The nine floats that one round of the loop over [j] appends: the
    staging normals named by the first three entries of [faceNormals]. *)
Definition face_normals (tempNormals : list vec3) (faceNormals : list Z) : list float :=
  flatten (normal_of tempNormals (nth 0 faceNormals 0))
  ++ flatten (normal_of tempNormals (nth 1 faceNormals 0))
  ++ flatten (normal_of tempNormals (nth 2 faceNormals 0)).

Definition first_three_valid (tempNormals : list vec3) (faceNormals : list Z) : Prop :=
  forall j, (j < 3)%nat -> valid_normal tempNormals (nth j faceNormals 0).

(** The mesh after [k] rounds that start at corner [i]. *)
Definition after_rounds (tn : list vec3) (fv fn : list Z) (i k : nat) (m : Mesh) : Mesh :=
  mkMesh (vertices m)
         (normals m ++ List.concat (repeat (face_normals tn fn) k))
         (indices m
          ++ flat_map (fun j => [nth 0 fv 0; nth j fv 0; nth (S j) fv 0]) (seq i k))
         (edgeIndices m).

(** The characters of a line from position [k] on. *)
Definition payload (k : nat) (line : string) : string :=
  substring k (String.length line - k) line.

Definition is_v_line (line : string) : bool := (substring 0 2 line =? "v ")%string.
Definition is_vn_line (line : string) : bool := (substring 0 3 line =? "vn ")%string.
Definition is_f_line (line : string) : bool := (substring 0 2 line =? "f ")%string.

(** A mesh grown by [k] triangles: three indices each, and three staging
    normals each, flattened; [vertices] and [edgeIndices] untouched. *)
Definition grown_by (tn : list vec3) (k : nat) (m m' : Mesh) : Prop :=
  exists (ixs : list Z) (vs : list vec3),
    m' = mkMesh (vertices m) (normals m ++ flat_map flatten vs)
                (indices m ++ ixs) (edgeIndices m)
    /\ List.length ixs = (3 * k)%nat
    /\ List.length vs = (3 * k)%nat
    /\ Forall (fun v => In v tn) vs.

(** The number of corner tokens of each face line of a file. *)
Definition face_corner_counts (lines : list string) : list nat :=
  map (fun line => List.length (tokens (rest_after 2 line))) (filter is_f_line lines).


(* ================================================================== *)
(** * Sources and frames used to run the model *)

(** The floats 0 and 1. *)
Definition f0 : float := S754_zero false.
Definition f1 : float := Eval vm_compute in float_of_Z 1.

(** The triangle of the specification's example scenario. *)
Definition triangle_source : string :=
  unlines ["v 0 0 0"; "v 1 0 0"; "v 0 1 0"; "vn 0 0 1"; "f 1//1 2//1 3//1"]%string.

Definition triangle_mesh : Mesh :=
  mkMesh [f0; f0; f0; f1; f0; f0; f0; f1; f0]
         [f0; f0; f1; f0; f0; f1; f0; f0; f1]
         [0; 1; 2] [].

(** A quadrilateral whose four corners name four different normals. *)
Definition quad_source : string :=
  unlines ["v 0 0 0"; "v 1 0 0"; "v 1 1 0"; "v 0 1 0";
           "vn 1 0 0"; "vn 0 1 0"; "vn 0 0 1"; "vn 1 1 1";
           "f 1//1 2//2 3//3 4//4"]%string.

(** The four normals of [quad_source]. *)
Definition n1 : vec3 := mkvec3 f1 f0 f0.
Definition n2 : vec3 := mkvec3 f0 f1 f0.
Definition n3 : vec3 := mkvec3 f0 f0 f1.
Definition n4 : vec3 := mkvec3 f1 f1 f1.

(** A face of two corners. *)
Definition two_corner_source : string :=
  unlines ["v 0 0 0"; "v 1 0 0"; "vn 0 0 1"; "f 1//1 2//1"]%string.

(** A position whose third coordinate is not a number, and a face whose
    first corner carries letters after its digits. *)
Definition malformed_source : string :=
  unlines ["v 1 0 abc"; "v 1 0 0"; "v 0 1 0"; "vn 0 0 1"; "f 1x//1y 2//1 3//1"]%string.



(** Keys held during a frame. *)
Definition all_keys : Keys := mkKeys true true true true true true.
Definition zoom_in_key : Keys := mkKeys false false false false true false.
Definition zoom_out_key : Keys := mkKeys false false false false false true.

(** One sixtieth of a second. *)
Definition a_frame_time : float :=
  Eval vm_compute in fdiv (float_of_Z 1) (float_of_Z 60).

(* ================================================================== *)
(** * The render loop *)

(** What one pass of the render loop reads from the window: the clock
    ([glfwGetTime], converted to [float]), the control keys, the escape
    key, and whether [glfwPollEvents] at the end of the pass delivers a
    request to close the window. *)
Record Input : Type := mkInput {
  clock : float;
  keys_down : Keys;
  key_ESCAPE : bool;
  close_event : bool
}.

(** What lives across the passes of the render loop: the camera,
    [lastFrameTime] and the window's close flag. *)
Record Loop : Type := mkLoop {
  camera : Camera;
  lastFrameTime : float;
  shouldClose : bool
}.

(** Lines 238-244. *)
Definition initial_loop : Loop :=
  mkLoop initial_camera (S754_zero false) false.

(** Line 248: [deltaTime = currentFrame - lastFrameTime]. *)
Definition elapsed (i : Input) (s : Loop) : float := fsub (clock i) (lastFrameTime s).

(** One pass of the loop body (lines 247-311): the elapsed time is
    taken and the clock reading kept (247-249), the escape key raises
    the close flag (252-253), the camera is moved (256-272), the scene is
    drawn and the events are polled (274-311). *)
Definition frame (i : Input) (s : Loop) : Loop :=
  let currentFrame := clock i in
  let deltaTime := elapsed i s in
  mkLoop (update_camera (keys_down i) deltaTime (camera s))
         currentFrame
         (shouldClose s || key_ESCAPE i || close_event i)%bool.

(** [while (!glfwWindowShouldClose(window))] on the inputs of the passes
    to come: the state when the loop is left, or when the inputs are
    used up. *)
Fixpoint main_loop (inputs : list Input) (s : Loop) : Loop :=
  match inputs with
  | [] => s
  | i :: more => if shouldClose s then s else main_loop more (frame i s)
  end.

(** No control key is held. *)
Definition idle (keys : Keys) : bool :=
  negb (key_A keys || key_D keys || key_W keys || key_S keys
        || key_Q keys || key_E keys)%bool.

(* ================================================================== *)
(** * Vocabulary of the further statements *)

(** A line that one of the three branches of the loop body takes. *)
Definition recognised (line : string) : bool :=
  (is_v_line line || is_vn_line line || is_f_line line)%bool.

Definition not_v_line (line : string) : bool := negb (is_v_line line).

(** An outcome with the staged positions replaced. *)
Definition with_positions (tv : list vec3) (r : outcome loader) : outcome loader :=
  match r with
  | Ok st => Ok (mkloader (mesh st) tv (tempNormals st))
  | Throw e => Throw e
  | Undefined u => Undefined u
  | OutOfFuel => OutOfFuel
  end.

(** The triangles a face of [n] corners gives. *)
Definition triangles_of (n : nat) : nat := (n - 2)%nat.

(** A list continued by another. *)
Definition extends {A : Type} (l l' : list A) : Prop :=
  exists more, l' = (l ++ more)%list.

(** The position indices a face line names, in the order of its corner
    tokens; none when a token does not convert. *)
Definition face_corners (line : string) : list Z :=
  match read_corners (tokens (rest_after 2 line)) [] [] with
  | Ok (faceVerts, _) => faceVerts
  | _ => []
  end.

(** A text made of separators only; of white space only. *)
Fixpoint all_sep (sep : ascii -> bool) (s : string) : bool :=
  match s with
  | EmptyString => true
  | String c s' => (sep c && all_sep sep s')%bool
  end.

Fixpoint all_space (s : string) : bool :=
  match s with
  | EmptyString => true
  | String c s' => (isspace c && all_space s')%bool
  end.

(** The last character of a text. *)
Fixpoint last_char (s : string) : option ascii :=
  match s with
  | EmptyString => None
  | String c EmptyString => Some c
  | String _ s' => last_char s'
  end.

(** A text that ends in the middle of a line. *)
Definition ends_inside_a_line (text : string) : Prop :=
  exists c, last_char text = Some c /\ is_newline c = false.

(** A corner token with its three fields: position, texture, normal. *)
Definition corner_token (a t b : string) : string :=
  (a ++ String "/" (t ++ String "/" b))%string.

(** Decimal numerals, most significant digit first. *)
Definition digit_char (d : nat) : ascii := ascii_of_nat (48 + d).

Fixpoint numeral (ds : list nat) : string :=
  match ds with
  | [] => EmptyString
  | d :: ds' => String (digit_char d) (numeral ds')
  end.

Definition numeral_value (ds : list nat) : Z :=
  fold_left (fun a d => 10 * a + Z.of_nat d) ds 0.

(** A numeral of at least one digit, all digits below ten. *)
Definition decimal (ds : list nat) : bool :=
  (negb (Nat.eqb (List.length ds) 0) && forallb (fun d => Nat.ltb d 10) ds)%bool.

(* ================================================================== *)
(** * Machine integers and vector access *)

Lemma to_size_t_small : forall n, 0 <= n < size_t_modulus -> to_size_t n = n.
Proof. intros n H. unfold to_size_t. apply Z.mod_small. exact H. Qed.

Lemma size_t_modulus_val : size_t_modulus = 18446744073709551616.
Proof. reflexivity. Qed.

Lemma at_in_range :
  forall (A : Type) (site : ub_site) (vec : list A) (i : nat) (d : A),
    (i < List.length vec)%nat -> at_ site vec (Z.of_nat i) = Ok (nth i vec d).
Proof.
  intros A site vec i d H. unfold at_.
  destruct (Z.ltb_spec (Z.of_nat i) 0) as [Hneg | _]; [lia |].
  rewrite Nat2Z.id.
  rewrite (nth_error_nth' vec d H). reflexivity.
Qed.

Lemma at_out_of_range :
  forall (A : Type) (site : ub_site) (vec : list A) (i : Z),
    i < 0 \/ vsize vec <= i -> at_ site vec i = Undefined site.
Proof.
  intros A site vec i H. unfold at_, vsize in *.
  destruct (Z.ltb_spec i 0) as [_ | Hpos]; [reflexivity |].
  destruct (nth_error vec (Z.to_nat i)) eqn:E; [| reflexivity].
  assert (Z.to_nat i < List.length vec)%nat
    by (apply nth_error_Some; rewrite E; discriminate).
  lia.
Qed.

Lemma at_cases :
  forall (A : Type) (site : ub_site) (vec : list A) (i : Z),
    (exists a, at_ site vec i = Ok a) \/ at_ site vec i = Undefined site.
Proof.
  intros A site vec i. unfold at_.
  destruct (i <? 0); [right; reflexivity |].
  destruct (nth_error vec (Z.to_nat i)); [left; eexists; reflexivity | right; reflexivity].
Qed.

Lemma at_In :
  forall (A : Type) (site : ub_site) (vec : list A) (i : Z) (a : A),
    at_ site vec i = Ok a -> In a vec.
Proof.
  intros A site vec i a H. unfold at_ in H.
  destruct (i <? 0); [discriminate |].
  destruct (nth_error vec (Z.to_nat i)) eqn:E; [| discriminate].
  injection H as <-. eapply nth_error_In. exact E.
Qed.

Lemma at_in_range_Z :
  forall (A : Type) (site : ub_site) (vec : list A) (i : Z),
    0 <= i < vsize vec -> exists a, at_ site vec i = Ok a.
Proof.
  intros A site vec i H.
  destruct (at_cases A site vec i) as [Hok | Hub]; [exact Hok |].
  unfold at_, vsize in *.
  destruct (Z.ltb_spec i 0); [lia |].
  destruct (nth_error vec (Z.to_nat i)) eqn:E; [discriminate |].
  apply nth_error_None in E. lia.
Qed.

Lemma at_valid_normal :
  forall tn n, valid_normal tn n -> at_ oob_tempNormals tn n = Ok (normal_of tn n).
Proof.
  intros tn n [H0 H1]. unfold normal_of, vsize in *.
  rewrite <- (Z2Nat.id n H0) at 1. apply at_in_range. lia.
Qed.

(* ================================================================== *)
(** * The triangulation loop *)

Lemma add_normals_ok :
  forall tn fn m,
    (3 <= List.length fn)%nat -> first_three_valid tn fn ->
    add_normals tn fn [0; 1; 2] m
    = Ok (mkMesh (vertices m) (normals m ++ face_normals tn fn)
                 (indices m) (edgeIndices m)).
Proof.
  intros tn fn m Hlen Hval.
  change [0; 1; 2] with [Z.of_nat 0; Z.of_nat 1; Z.of_nat 2]. unfold add_normals.
  rewrite (at_in_range _ _ fn 0%nat 0) by lia. cbn [bind].
  rewrite (at_valid_normal tn _ (Hval 0%nat ltac:(lia))). cbn [bind].
  rewrite (at_in_range _ _ fn 1%nat 0) by lia. cbn [bind].
  rewrite (at_valid_normal tn _ (Hval 1%nat ltac:(lia))). cbn [bind].
  rewrite (at_in_range _ _ fn 2%nat 0) by lia. cbn [bind].
  rewrite (at_valid_normal tn _ (Hval 2%nat ltac:(lia))). cbn [bind].
  unfold push_normal, face_normals, flatten. cbn [vertices normals indices edgeIndices].
  repeat rewrite <- app_assoc. reflexivity.
Qed.

(** The loop over [j] touches nothing but [normals]; what it appends are
    staging normals, flattened, and it stops only on an out-of-range
    access. *)
Lemma add_normals_cases :
  forall tn fn js m,
    (exists vs,
        add_normals tn fn js m
        = Ok (mkMesh (vertices m) (normals m ++ flat_map flatten vs)
                     (indices m) (edgeIndices m))
        /\ List.length vs = List.length js
        /\ Forall (fun v => In v tn) vs)
    \/ add_normals tn fn js m = Undefined oob_faceNormals
    \/ add_normals tn fn js m = Undefined oob_tempNormals.
Proof.
  intros tn fn js. induction js as [| j js IH]; intros m.
  - left. exists []. cbn [flat_map]. rewrite app_nil_r.
    destruct m; repeat split; constructor.
  - cbn [add_normals].
    destruct (at_cases _ oob_faceNormals fn j) as [[n Hn] | Hn]; rewrite Hn; cbn [bind];
      [| right; left; reflexivity].
    destruct (at_cases _ oob_tempNormals tn n) as [[v Hv] | Hv]; rewrite Hv; cbn [bind];
      [| right; right; reflexivity].
    destruct (IH (push_normal (push_normal (push_normal m (x v)) (y v)) (z v)))
      as [[vs [He [Hl Hin]]] | H]; [| right; exact H].
    left. exists (v :: vs). split; [| split].
    + rewrite He. unfold push_normal, flatten.
      cbn [vertices normals indices edgeIndices flat_map].
      repeat rewrite <- app_assoc. reflexivity.
    + cbn [List.length]. rewrite Hl. reflexivity.
    + constructor; [| exact Hin]. eapply at_In. exact Hv.
Qed.

Lemma add_normals_defined :
  forall tn fn m,
    (3 <= List.length fn)%nat ->
    (exists m', add_normals tn fn [0; 1; 2] m = Ok m')
    \/ add_normals tn fn [0; 1; 2] m = Undefined oob_tempNormals.
Proof.
  intros tn fn m Hlen.
  change [0; 1; 2] with [Z.of_nat 0; Z.of_nat 1; Z.of_nat 2]. unfold add_normals.
  rewrite (at_in_range _ _ fn 0%nat 0) by lia. cbn [bind].
  destruct (at_cases _ oob_tempNormals tn (nth 0 fn 0)) as [[v0 H0] | H0];
    rewrite H0; cbn [bind]; [| right; reflexivity].
  rewrite (at_in_range _ _ fn 1%nat 0) by lia. cbn [bind].
  destruct (at_cases _ oob_tempNormals tn (nth 1 fn 0)) as [[v1 H1] | H1];
    rewrite H1; cbn [bind]; [| right; reflexivity].
  rewrite (at_in_range _ _ fn 2%nat 0) by lia. cbn [bind].
  destruct (at_cases _ oob_tempNormals tn (nth 2 fn 0)) as [[v2 H2] | H2];
    rewrite H2; cbn [bind]; [| right; reflexivity].
  left. eexists. reflexivity.
Qed.

Lemma fan_bound :
  forall fv : list Z,
    (1 <= List.length fv)%nat -> vsize fv < size_t_modulus ->
    to_size_t (vsize fv - 1) = Z.of_nat (List.length fv - 1).
Proof.
  intros fv H1 H2. unfold vsize in *. rewrite to_size_t_small by lia. lia.
Qed.

Lemma fan_rounds :
  forall tn fv fn,
    (3 <= List.length fn)%nat -> first_three_valid tn fn ->
    vsize fv < size_t_modulus ->
    forall k i fuel m,
      (1 <= i)%nat -> (i + k = List.length fv - 1)%nat -> (k <= fuel)%nat ->
      fan fuel tn fv fn (Z.of_nat i) m = Ok (after_rounds tn fv fn i k m).
Proof.
  intros tn fv fn Hfn Hval Hsz.
  induction k as [| k IH]; intros i fuel m Hi Hik Hfuel.
  - assert (Hb : to_size_t (vsize fv - 1) = Z.of_nat i)
      by (rewrite fan_bound by lia; f_equal; lia).
    destruct fuel; cbn [fan]; rewrite Hb, Z.ltb_irrefl;
      unfold after_rounds; cbn [repeat List.concat seq flat_map];
      rewrite !app_nil_r; destruct m; reflexivity.
  - destruct fuel as [| fuel]; [lia |].
    cbn [fan]. rewrite fan_bound by lia.
    destruct (Z.ltb_spec (Z.of_nat i) (Z.of_nat (List.length fv - 1))) as [_ | Hge]; [| lia].
    assert (Hnext : to_size_t (Z.of_nat i + 1) = Z.of_nat (S i)).
    { rewrite to_size_t_small; unfold vsize in Hsz; lia. }
    rewrite Hnext.
    change 0 with (Z.of_nat 0) at 1.
    rewrite (at_in_range _ _ fv 0%nat 0) by lia. cbn [bind].
    rewrite (at_in_range _ _ fv i 0) by lia. cbn [bind].
    rewrite (at_in_range _ _ fv (S i) 0) by lia. cbn [bind].
    rewrite add_normals_ok by assumption. cbn [bind].
    rewrite IH by lia.
    unfold after_rounds, push_index. cbn [vertices normals indices edgeIndices].
    cbn [repeat List.concat seq flat_map].
    repeat rewrite <- app_assoc. reflexivity.
Qed.

Lemma fan_triangles_flat :
  forall fv : list Z,
    flat_map (fun j => [nth 0 fv 0; nth j fv 0; nth (S j) fv 0])
             (seq 1 (List.length fv - 2))
    = flat_map triple (fan_triangles 0 fv).
Proof.
  intros fv. unfold fan_triangles.
  rewrite (flat_map_concat_map triple), map_map, <- flat_map_concat_map.
  reflexivity.
Qed.

(** A face of three or more corners whose first three normal indices are
    in range: the loop returns. *)
Lemma triangulate_polygon :
  forall tn fv fn m,
    (3 <= List.length fv)%nat -> List.length fn = List.length fv ->
    vsize fv < size_t_modulus -> first_three_valid tn fn ->
    triangulate tn fv fn m
    = Ok (mkMesh (vertices m)
                 (normals m ++ List.concat (repeat (face_normals tn fn) (List.length fv - 2)))
                 (indices m ++ flat_map triple (fan_triangles 0 fv))
                 (edgeIndices m)).
Proof.
  intros tn fv fn m H3 Hlen Hsz Hval. unfold triangulate.
  change 1 with (Z.of_nat 1).
  rewrite (fan_rounds tn fv fn ltac:(lia) Hval Hsz (List.length fv - 2) 1) by lia.
  unfold after_rounds. rewrite fan_triangles_flat. reflexivity.
Qed.

(** A face of one or two corners: the loop body never runs. *)
Lemma triangulate_short :
  forall tn fv fn m,
    (1 <= List.length fv <= 2)%nat -> triangulate tn fv fn m = Ok m.
Proof.
  intros tn fv fn m H. unfold triangulate. cbn [fan].
  rewrite fan_bound by (unfold vsize, size_t_modulus; lia).
  destruct (Z.ltb_spec 1 (Z.of_nat (List.length fv - 1))); [lia | reflexivity].
Qed.

(** A face without corners: [size() - 1] wraps to the largest [size_t],
    the body runs and reads [faceVerts[0]]. *)
Lemma triangulate_empty :
  forall tn fn m, triangulate tn [] fn m = Undefined oob_faceVerts.
Proof. intros. reflexivity. Qed.

(** A face of three or more corners one of whose first three normal
    indices is out of range: the first round reads outside
    [tempNormals]. *)
Lemma triangulate_bad_normal :
  forall tn fv fn m,
    (3 <= List.length fv)%nat -> List.length fn = List.length fv ->
    vsize fv < size_t_modulus -> ~ first_three_valid tn fn ->
    triangulate tn fv fn m = Undefined oob_tempNormals.
Proof.
  intros tn fv fn m H3 Hlen Hsz Hbad. unfold triangulate. cbn [fan].
  rewrite fan_bound by lia.
  destruct (Z.ltb_spec 1 (Z.of_nat (List.length fv - 1))) as [_ | Hge]; [| lia].
  rewrite to_size_t_small by (unfold size_t_modulus; lia).
  change 0 with (Z.of_nat 0) at 1. change 1 with (Z.of_nat 1) at 1.
  change (1 + 1) with (Z.of_nat 2).
  rewrite (at_in_range _ _ fv 0%nat 0) by lia. cbn [bind].
  rewrite (at_in_range _ _ fv 1%nat 0) by lia. cbn [bind].
  rewrite (at_in_range _ _ fv 2%nat 0) by lia. cbn [bind].
  set (m1 := push_index _ _).
  destruct (add_normals_defined tn fn m1 ltac:(lia)) as [[m' Hok] | Hub];
    [| rewrite Hub; reflexivity].
  exfalso. apply Hbad. clear - Hok Hlen H3.
  intros j Hj.
  change [0; 1; 2] with [Z.of_nat 0; Z.of_nat 1; Z.of_nat 2] in Hok.
  unfold add_normals in Hok.
  assert (Hat : forall n r, at_ oob_tempNormals tn n = Ok r -> valid_normal tn n).
  { intros n r H. unfold valid_normal. 
    destruct (Z_lt_dec n 0) as [Hn | Hn];
      [rewrite at_out_of_range in H by lia; discriminate |].
    destruct (Z_le_dec (vsize tn) n) as [Hn' | Hn'];
      [rewrite at_out_of_range in H by lia; discriminate | lia]. }
  rewrite (at_in_range _ _ fn 0%nat 0) in Hok by lia. cbn [bind] in Hok.
  destruct (at_ oob_tempNormals tn (nth 0 fn 0)) eqn:E0; try discriminate.
  cbn [bind] in Hok.
  rewrite (at_in_range _ _ fn 1%nat 0) in Hok by lia. cbn [bind] in Hok.
  destruct (at_ oob_tempNormals tn (nth 1 fn 0)) eqn:E1; try discriminate.
  cbn [bind] in Hok.
  rewrite (at_in_range _ _ fn 2%nat 0) in Hok by lia. cbn [bind] in Hok.
  destruct (at_ oob_tempNormals tn (nth 2 fn 0)) eqn:E2; try discriminate.
  destruct j as [| [| [| j]]]; [eauto | eauto | eauto | lia].
Qed.

(* ================================================================== *)
(** * Strings and corner tokens *)

Lemma substring_0_min :
  forall s k, substring 0 (Nat.min k (String.length s)) s = substring 0 k s.
Proof.
  induction s as [| c s IH]; intros k.
  - destruct k; reflexivity.
  - destruct k as [| k]; [reflexivity |].
    cbn [String.length Nat.min substring]. rewrite IH. reflexivity.
Qed.

Lemma substr_prefix :
  forall s k, 0 <= k -> substr s 0 k = Ok (substring 0 (Z.to_nat k) s).
Proof.
  intros s k Hk. unfold substr, size.
  destruct (Z.ltb_spec (Z.of_nat (String.length s)) 0) as [Hneg | _]; [lia |].
  replace (Z.to_nat (Z.min k (Z.of_nat (String.length s) - 0)))
    with (Nat.min (Z.to_nat k) (String.length s)) by lia.
  change (Z.to_nat 0) with 0%nat. rewrite substring_0_min. reflexivity.
Qed.

Lemma substr_cases :
  forall s pos count,
    (exists r, substr s pos count = Ok r) \/ substr s pos count = Throw out_of_range.
Proof.
  intros s pos count. unfold substr.
  destruct (size s <? pos); [right | left; eexists]; reflexivity.
Qed.

Lemma rest_after_payload :
  forall k line,
    size line < size_t_modulus -> rest_after (Z.of_nat k) line = payload k line.
Proof.
  intros k line H. unfold rest_after, payload, size, npos in *.
  rewrite Nat2Z.id. f_equal. lia.
Qed.

Lemma substring_length_le :
  forall s n m, (String.length (substring n m s) <= m)%nat.
Proof.
  induction s as [| c s IH]; intros n m.
  - destruct n, m; cbn; lia.
  - destruct n as [| n].
    + destruct m as [| m]; cbn [substring String.length]; [lia |].
      specialize (IH 0%nat m). lia.
    + cbn [substring]. apply IH.
Qed.

Lemma substring_short :
  forall s k, (String.length s < k)%nat -> String.length (substring 0 k s) = String.length s.
Proof.
  induction s as [| c s IH]; intros k H.
  - destruct k; reflexivity.
  - destruct k as [| k]; cbn [String.length] in *; [lia |].
    cbn [substring String.length]. rewrite IH by lia. reflexivity.
Qed.

Lemma prefix_long_enough :
  forall line p k,
    substring 0 k line = p -> String.length p = k -> (k <= String.length line)%nat.
Proof.
  intros line p k H Hp. subst p.
  destruct (Nat.le_gt_cases k (String.length line)) as [Hle | Hgt]; [exact Hle |].
  rewrite substring_short in Hp by exact Hgt. lia.
Qed.

Lemma substr_rest :
  forall line k,
    (k <= String.length line)%nat ->
    substr line (Z.of_nat k) npos = Ok (rest_after (Z.of_nat k) line).
Proof.
  intros line k H. unfold substr, rest_after, size.
  destruct (Z.ltb_spec (Z.of_nat (String.length line)) (Z.of_nat k)); [lia | reflexivity].
Qed.

Lemma stoul_cases :
  forall s, (exists v, stoul s = Ok v) \/ (exists e, stoul s = Throw e).
Proof.
  intros s. unfold stoul.
  destruct (read_sign (skip_ws s)) as [neg s'].
  destruct (fst (read_digits None s')); [| right; eexists; reflexivity].
  destruct (ulong_modulus <=? z0); [right | left]; eexists; reflexivity.
Qed.

Lemma to_uint_range : forall n, 0 <= to_uint n < uint_modulus.
Proof. intros n. unfold to_uint. apply Z.mod_pos_bound. reflexivity. Qed.

(** A corner token converts or throws; nothing else can happen. *)
Lemma read_corner_cases :
  forall token,
    (exists v n, read_corner token = Ok (v, n)
                 /\ 0 <= v < uint_modulus /\ 0 <= n < uint_modulus)
    \/ (exists e, read_corner token = Throw e).
Proof.
  intros token. unfold read_corner.
  destruct (substr_cases token 0 (find token "/" 0)) as [[s1 H1] | H1];
    rewrite H1; cbn [bind]; [| right; eexists; reflexivity].
  destruct (stoul_cases s1) as [[r1 Hr1] | [e Hr1]];
    rewrite Hr1; cbn [bind]; [| right; eexists; reflexivity].
  match goal with |- context [substr token ?p npos] =>
    destruct (substr_cases token p npos) as [[s2 H2] | H2] end;
    rewrite H2; cbn [bind]; [| right; eexists; reflexivity].
  destruct (stoul_cases s2) as [[r2 Hr2] | [e Hr2]];
    rewrite Hr2; cbn [bind]; [| right; eexists; reflexivity].
  left. do 2 eexists. split; [reflexivity |]. split; apply to_uint_range.
Qed.

(** The two per-face vectors grow in step, one entry per token. *)
Lemma read_corners_length :
  forall toks fv fn fv' fn',
    read_corners toks fv fn = Ok (fv', fn') ->
    List.length fv' = (List.length fv + List.length toks)%nat
    /\ List.length fn' = (List.length fn + List.length toks)%nat.
Proof.
  induction toks as [| t toks IH]; intros fv fn fv' fn' H.
  - cbn in H. injection H as <- <-. split; cbn; lia.
  - cbn [read_corners] in H.
    destruct (read_corner t) as [[v n] | e | u |]; cbn [bind] in H; try discriminate.
    apply IH in H. rewrite !length_app in H. cbn [List.length] in *. lia.
Qed.

Lemma read_corners_cases :
  forall toks fv fn,
    (exists fv' fn', read_corners toks fv fn = Ok (fv', fn'))
    \/ (exists e, read_corners toks fv fn = Throw e).
Proof.
  induction toks as [| t toks IH]; intros fv fn.
  - left. do 2 eexists. reflexivity.
  - cbn [read_corners].
    destruct (read_corner_cases t) as [[v [n [H _]]] | [e H]]; rewrite H; cbn [bind].
    + apply IH.
    + right. eexists. reflexivity.
Qed.

(** One token that throws makes the whole token loop throw. *)
Lemma read_corners_throw :
  forall toks fv fn t e,
    In t toks -> read_corner t = Throw e ->
    exists e', read_corners toks fv fn = Throw e'.
Proof.
  induction toks as [| t0 toks IH]; intros fv fn t e Hin Ht; [destruct Hin |].
  cbn [read_corners].
  destruct (read_corner_cases t0) as [[v [n [H _]]] | [e0 H]]; rewrite H; cbn [bind].
  - destruct Hin as [-> | Hin]; [congruence |]. eapply IH; eassumption.
  - eexists. reflexivity.
Qed.

(** Tokens that all convert make the token loop return. *)
Lemma read_corners_ok :
  forall toks fv fn,
    (forall t, In t toks -> returns (read_corner t)) ->
    returns (read_corners toks fv fn).
Proof.
  induction toks as [| t0 toks IH]; intros fv fn Hall.
  - eexists. reflexivity.
  - cbn [read_corners].
    destruct (Hall t0 (or_introl eq_refl)) as [[v n] H]. rewrite H. cbn [bind].
    apply IH. intros t Ht. apply Hall. right. exact Ht.
Qed.

(* ================================================================== *)
(** * Classifying lines *)

Lemma vn_line_not_v : forall line, is_vn_line line = true -> is_v_line line = false.
Proof.
  intros line H. unfold is_vn_line, is_v_line in *.
  apply String.eqb_eq in H.
  destruct line as [| a [| b [| c line]]]; cbn in H; try discriminate.
  injection H as -> -> _. reflexivity.
Qed.

Lemma f_line_not_v : forall line, is_f_line line = true -> is_v_line line = false.
Proof.
  intros line H. unfold is_f_line, is_v_line in *.
  apply String.eqb_eq in H. rewrite H. reflexivity.
Qed.

Lemma f_line_not_vn : forall line, is_f_line line = true -> is_vn_line line = false.
Proof.
  intros line H. unfold is_f_line, is_vn_line in *.
  apply String.eqb_eq in H.
  destruct line as [| a [| b [| c line]]]; cbn in H |- *; try discriminate;
    injection H as -> ->; reflexivity.
Qed.

Lemma v_line_long : forall line, is_v_line line = true -> (2 <= String.length line)%nat.
Proof.
  intros line H. apply String.eqb_eq in H.
  apply (prefix_long_enough line "v " 2 H). reflexivity.
Qed.

Lemma vn_line_long : forall line, is_vn_line line = true -> (3 <= String.length line)%nat.
Proof.
  intros line H. apply String.eqb_eq in H.
  apply (prefix_long_enough line "vn " 3 H). reflexivity.
Qed.

Lemma f_line_long : forall line, is_f_line line = true -> (2 <= String.length line)%nat.
Proof.
  intros line H. apply String.eqb_eq in H.
  apply (prefix_long_enough line "f " 2 H). reflexivity.
Qed.

Section LoaderFacts.

Variable num_get : string -> float * bool * string.
Variable vec3_default : vec3.

(** The four branches of the loop body. *)
Lemma do_line_v :
  forall line st,
    is_v_line line = true ->
    do_line num_get vec3_default line st
    = Ok (mkloader (mesh st) (tempVertices st ++ [read_vec3 num_get vec3_default (rest_after 2 line)])
                   (tempNormals st)).
Proof.
  intros line st H. unfold do_line.
  rewrite (substr_prefix line 2) by lia. cbn [bind].
  change (substring 0 (Z.to_nat 2) line =? "v ")%string with (is_v_line line). rewrite H.
  change 2 with (Z.of_nat 2).
  rewrite substr_rest by (apply v_line_long; exact H). reflexivity.
Qed.

Lemma do_line_vn :
  forall line st,
    is_vn_line line = true ->
    do_line num_get vec3_default line st
    = Ok (mkloader (mesh st) (tempVertices st)
                   (tempNormals st ++ [read_vec3 num_get vec3_default (rest_after 3 line)])).
Proof.
  intros line st H. unfold do_line.
  rewrite (substr_prefix line 2) by lia. cbn [bind].
  change (substring 0 (Z.to_nat 2) line =? "v ")%string with (is_v_line line).
  rewrite (vn_line_not_v line H).
  rewrite (substr_prefix line 3) by lia. cbn [bind].
  change (substring 0 (Z.to_nat 3) line =? "vn ")%string with (is_vn_line line). rewrite H.
  change 3 with (Z.of_nat 3).
  rewrite substr_rest by (apply vn_line_long; exact H). reflexivity.
Qed.

Lemma do_line_f :
  forall line st,
    is_f_line line = true ->
    do_line num_get vec3_default line st = face_line (rest_after 2 line) st.
Proof.
  intros line st H. unfold do_line.
  rewrite (substr_prefix line 2) by lia. cbn [bind].
  change (substring 0 (Z.to_nat 2) line =? "v ")%string with (is_v_line line).
  rewrite (f_line_not_v line H).
  rewrite (substr_prefix line 3) by lia. cbn [bind].
  change (substring 0 (Z.to_nat 3) line =? "vn ")%string with (is_vn_line line).
  rewrite (f_line_not_vn line H).
  change (substring 0 (Z.to_nat 2) line =? "f ")%string with (is_f_line line). rewrite H.
  change 2 with (Z.of_nat 2).
  rewrite substr_rest by (apply f_line_long; exact H). reflexivity.
Qed.

Lemma do_line_other :
  forall line st,
    is_v_line line = false -> is_vn_line line = false -> is_f_line line = false ->
    do_line num_get vec3_default line st = Ok st.
Proof.
  intros line st Hv Hvn Hf. unfold do_line.
  rewrite (substr_prefix line 2) by lia. cbn [bind].
  change (substring 0 (Z.to_nat 2) line =? "v ")%string with (is_v_line line). rewrite Hv.
  rewrite (substr_prefix line 3) by lia. cbn [bind].
  change (substring 0 (Z.to_nat 3) line =? "vn ")%string with (is_vn_line line). rewrite Hvn.
  change (substring 0 (Z.to_nat 2) line =? "f ")%string with (is_f_line line). rewrite Hf.
  reflexivity.
Qed.

End LoaderFacts.

(* ================================================================== *)
(** * The shape of every run *)

Lemma grown_by_refl : forall tn m, grown_by tn 0 m m.
Proof.
  intros tn m. exists [], []. cbn [flat_map]. rewrite !app_nil_r.
  destruct m; repeat split; constructor.
Qed.

Lemma to_size_t_le : forall n, 0 <= n -> 0 <= to_size_t n <= n /\ to_size_t n < size_t_modulus.
Proof.
  intros n H. unfold to_size_t.
  pose proof (Z.mod_pos_bound n size_t_modulus eq_refl).
  pose proof (Z.mod_le n size_t_modulus H eq_refl). lia.
Qed.

(** Whatever the fuel and the size of the vectors: on a face with at
    least one corner, a run of the loop from [i >= 1] returns a grown
    mesh or reads outside [tempNormals]; with fuel for the corners that
    remain it does not run out. *)
Lemma fan_shape :
  forall tn fv fn,
    (1 <= List.length fv)%nat -> List.length fn = List.length fv ->
    forall fuel i m,
      1 <= i -> vsize fv + 1 <= Z.of_nat fuel + i ->
      (exists k m', fan fuel tn fv fn i m = Ok m' /\ grown_by tn k m m')
      \/ fan fuel tn fv fn i m = Undefined oob_tempNormals.
Proof.
  intros tn fv fn Hne Hlen.
  assert (Hb : 0 <= to_size_t (vsize fv - 1) <= vsize fv - 1
               /\ to_size_t (vsize fv - 1) < size_t_modulus)
    by (apply to_size_t_le; unfold vsize; lia).
  induction fuel as [| fuel IH]; intros i m Hi Hfuel.
  - cbn [fan]. destruct (Z.ltb_spec i (to_size_t (vsize fv - 1))) as [Hlt | _]; [lia |].
    left. exists 0%nat, m. split; [reflexivity | apply grown_by_refl].
  - cbn [fan]. destruct (Z.ltb_spec i (to_size_t (vsize fv - 1))) as [Hlt | _].
    2:{ left. exists 0%nat, m. split; [reflexivity | apply grown_by_refl]. }
    rewrite (to_size_t_small (i + 1)) by lia.
    destruct (at_in_range_Z _ oob_faceVerts fv 0 ltac:(lia)) as [v0 H0]. rewrite H0.
    destruct (at_in_range_Z _ oob_faceVerts fv i ltac:(lia)) as [vi H1]. rewrite H1.
    destruct (at_in_range_Z _ oob_faceVerts fv (i + 1) ltac:(lia)) as [vj H2]. rewrite H2.
    cbn [bind].
    set (m1 := push_index (push_index (push_index m v0) vi) vj).
    assert (H3 : (3 <= List.length fn)%nat) by (unfold vsize in *; lia).
    destruct (add_normals_cases tn fn [0; 1; 2] m1) as [[vs [He [Hl Hin]]] | [Hub | Hub]].
    + rewrite He. cbn [bind].
      match goal with |- context [fan fuel tn fv fn (i + 1) ?m2] =>
        destruct (IH (i + 1) m2 ltac:(lia) ltac:(lia)) as [[k [m' [Hf Hg]]] | Hf] end;
        [| right; exact Hf].
      left. exists (S k), m'. split; [exact Hf |].
      destruct Hg as [ixs [ws [Hm' [His [Hws Hwin]]]]].
      exists ([v0; vi; vj] ++ ixs), (vs ++ ws).
      split; [| split; [| split]].
      * rewrite Hm'. subst m1. unfold push_index.
        cbn [vertices normals indices edgeIndices].
        rewrite flat_map_app. repeat rewrite <- app_assoc. reflexivity.
      * rewrite length_app, His. cbn [List.length]. lia.
      * rewrite length_app, Hws, Hl. cbn [List.length]. lia.
      * apply Forall_app. split; assumption.
    + destruct (add_normals_defined tn fn m1 H3) as [[m' Hok] | Hbad]; congruence.
    + rewrite Hub. right. reflexivity.
Qed.

Lemma triangulate_shape :
  forall tn fv fn m,
    List.length fn = List.length fv ->
    (exists k m', triangulate tn fv fn m = Ok m' /\ grown_by tn k m m')
    \/ triangulate tn fv fn m = Undefined oob_tempNormals
    \/ (fv = [] /\ triangulate tn fv fn m = Undefined oob_faceVerts).
Proof.
  intros tn fv fn m Hlen. destruct fv as [| c fv].
  - right. right. split; reflexivity.
  - destruct (fan_shape tn (c :: fv) fn ltac:(cbn; lia) Hlen
                (S (List.length (c :: fv))) 1 m ltac:(lia) ltac:(unfold vsize; lia))
      as [H | H]; [left | right; left]; exact H.
Qed.

(** The face branch: it throws, or it leaves the staging lists alone and
    returns a grown mesh, or it reads out of range. *)
Lemma face_line_shape :
  forall rest st,
    (exists e, face_line rest st = Throw e)
    \/ (exists k m',
          face_line rest st = Ok (mkloader m' (tempVertices st) (tempNormals st))
          /\ grown_by (tempNormals st) k (mesh st) m')
    \/ face_line rest st = Undefined oob_tempNormals
    \/ (tokens rest = [] /\ face_line rest st = Undefined oob_faceVerts).
Proof.
  intros rest st. unfold face_line.
  destruct (read_corners_cases (tokens rest) [] []) as [[fv [fn Hc]] | [e Hc]];
    rewrite Hc; cbn [bind]; [| left; eexists; reflexivity].
  destruct (read_corners_length _ _ _ _ _ Hc) as [Hfv Hfn]. cbn [List.length] in *.
  destruct (triangulate_shape (tempNormals st) fv fn (mesh st) ltac:(lia))
    as [[k [m' [Ht Hg]]] | [Ht | [Hnil Ht]]]; rewrite Ht; cbn [bind].
  - right. left. exists k, m'. split; [reflexivity | exact Hg].
  - right. right. left. reflexivity.
  - right. right. right. split; [| reflexivity].
    subst fv. cbn [List.length] in Hfv. destruct (tokens rest); [reflexivity | discriminate].
Qed.

Lemma grown_by_trans :
  forall tn tn' k1 k2 m0 m1 m2,
    grown_by tn k1 m0 m1 -> grown_by tn' k2 m1 m2 -> incl tn tn' ->
    grown_by tn' (k1 + k2) m0 m2.
Proof.
  intros tn tn' k1 k2 m0 m1 m2 [i1 [v1 [E1 [Li1 [Lv1 F1]]]]] [i2 [v2 [E2 [Li2 [Lv2 F2]]]]] Hincl.
  exists (i1 ++ i2)%list, (v1 ++ v2)%list. split; [| split; [| split]].
  - rewrite E2, E1. cbn [vertices normals indices edgeIndices].
    rewrite flat_map_app, <- !app_assoc. reflexivity.
  - rewrite length_app. lia.
  - rewrite length_app. lia.
  - apply Forall_app. split; [| exact F2].
    eapply Forall_impl; [| exact F1]. intros v Hv. apply Hincl. exact Hv.
Qed.

Lemma flatten_length :
  forall vs, List.length (flat_map flatten vs) = (3 * List.length vs)%nat.
Proof.
  induction vs as [| v vs IH]; [reflexivity |].
  cbn [flat_map flatten List.length app]. rewrite IH. lia.
Qed.

Lemma copy_vertices_spec :
  forall vs m,
    copy_vertices vs m
    = mkMesh (vertices m ++ flat_map flatten vs) (normals m) (indices m) (edgeIndices m).
Proof.
  unfold copy_vertices.
  induction vs as [| v vs IH]; intros m.
  - cbn [fold_left flat_map]. rewrite app_nil_r. destruct m; reflexivity.
  - cbn [fold_left]. rewrite IH. unfold push_vertex, flatten.
    cbn [vertices normals indices edgeIndices flat_map].
    repeat rewrite <- app_assoc. reflexivity.
Qed.

Lemma split_on_length :
  forall sep s l, In l (split_on sep s) -> (String.length l <= String.length s)%nat.
Proof.
  intros sep. induction s as [| c s IH]; intros l Hin.
  - cbn in Hin. destruct Hin as [<- | []]. cbn. lia.
  - cbn [split_on] in Hin. cbn [String.length].
    destruct (sep c).
    + destruct Hin as [<- | Hin]; [cbn; lia |]. specialize (IH l Hin). lia.
    + destruct (split_on sep s) as [| piece more] eqn:E.
      * destruct Hin as [<- | []]. cbn. lia.
      * destruct Hin as [<- | Hin].
        -- cbn [String.length]. specialize (IH piece (or_introl eq_refl)). lia.
        -- specialize (IH l (or_intror Hin)). lia.
Qed.

Lemma drop_last_if_empty_incl :
  forall l s, In s (drop_last_if_empty l) -> In s l.
Proof.
  induction l as [| a l IH]; intros s Hin; [exact Hin |].
  cbn [drop_last_if_empty] in Hin. destruct l as [| b l].
  - destruct (nonempty a); [exact Hin | destruct Hin].
  - destruct Hin as [<- | Hin]; [left; reflexivity | right; apply IH; exact Hin].
Qed.

(** No line is longer than the file. *)
Lemma getlines_length :
  forall text l, In l (getlines text) -> size l <= size text.
Proof.
  intros text l Hin. unfold getlines in Hin.
  apply drop_last_if_empty_incl, split_on_length in Hin. unfold size. lia.
Qed.

Section LoaderRuns.

Variable num_get : string -> float * bool * string.
Variable vec3_default : vec3.

(** What one round that returns has done. *)
Lemma do_line_shape :
  forall line st st',
    do_line num_get vec3_default line st = Ok st' ->
    tempVertices st'
    = (tempVertices st ++ map (position_of num_get vec3_default) (filter is_v_line [line]))%list
    /\ tempNormals st'
       = (tempNormals st ++ map (staged_normal_of num_get vec3_default) (filter is_vn_line [line]))%list
    /\ exists k, grown_by (tempNormals st) k (mesh st) (mesh st').
Proof.
  intros line st st' H. cbn [filter].
  destruct (is_v_line line) eqn:Hv.
  - rewrite do_line_v in H by exact Hv. injection H as <-.
    destruct (is_vn_line line) eqn:Hvn;
      [apply vn_line_not_v in Hvn; congruence |].
    cbn [tempVertices tempNormals mesh map]. rewrite app_nil_r.
    repeat split. exists 0%nat. apply grown_by_refl.
  - destruct (is_vn_line line) eqn:Hvn.
    + rewrite do_line_vn in H by exact Hvn. injection H as <-.
      cbn [tempVertices tempNormals mesh map]. rewrite app_nil_r.
      repeat split. exists 0%nat. apply grown_by_refl.
    + cbn [map]. rewrite !app_nil_r.
      destruct (is_f_line line) eqn:Hf.
      * rewrite do_line_f in H by exact Hf.
        destruct (face_line_shape (rest_after 2 line) st)
          as [[e He] | [[k [m' [He Hg]]] | [He | [_ He]]]]; rewrite He in H;
          try discriminate.
        injection H as <-. cbn [tempVertices tempNormals mesh].
        repeat split. exists k. exact Hg.
      * rewrite do_line_other in H by assumption. injection H as <-.
        repeat split. exists 0%nat. apply grown_by_refl.
Qed.

(** What a run of rounds that returns has done: the staging lists hold
    the [v] lines and the [vn] lines in the order of the file, and the
    mesh has grown by whole triangles. *)
Lemma do_lines_trace :
  forall lines st st',
    do_lines num_get vec3_default lines st = Ok st' ->
    tempVertices st'
    = (tempVertices st ++ map (position_of num_get vec3_default) (filter is_v_line lines))%list
    /\ tempNormals st'
       = (tempNormals st ++ map (staged_normal_of num_get vec3_default) (filter is_vn_line lines))%list
    /\ exists k, grown_by (tempNormals st') k (mesh st) (mesh st').
Proof.
  induction lines as [| line lines IH]; intros st st' H.
  - cbn in H. injection H as <-. cbn [filter map]. rewrite !app_nil_r.
    repeat split. exists 0%nat. apply grown_by_refl.
  - cbn [do_lines] in H.
    destruct (do_line num_get vec3_default line st) as [st1 | | |] eqn:E;
      cbn [bind] in H; try discriminate.
    destruct (do_line_shape _ _ _ E) as [Hv1 [Hn1 [k1 Hg1]]].
    destruct (IH _ _ H) as [Hv2 [Hn2 [k2 Hg2]]].
    change (line :: lines) with ([line] ++ lines)%list.
    rewrite !filter_app, !map_app, !app_assoc, <- Hv1, <- Hn1.
    split; [exact Hv2 |]. split; [exact Hn2 |].
    exists (k1 + k2)%nat. eapply grown_by_trans; [exact Hg1 | exact Hg2 |].
    rewrite Hn2, Hn1. intros v Hv. apply in_or_app. left. apply in_or_app. left. exact Hv.
Qed.

(** What [loadOBJ] returns, when it returns. *)
Lemma load_lines_result :
  forall lines m,
    load_lines num_get vec3_default lines = Ok m ->
    exists (k : nat) (ixs : list Z) (ns : list vec3),
      m = mkMesh (flat_map flatten (map (position_of num_get vec3_default) (filter is_v_line lines)))
                 (flat_map flatten ns) ixs []
      /\ List.length ixs = (3 * k)%nat
      /\ List.length ns = (3 * k)%nat
      /\ Forall (fun n => In n (map (staged_normal_of num_get vec3_default) (filter is_vn_line lines))) ns.
Proof.
  intros lines m H. unfold load_lines in H.
  destruct (do_lines num_get vec3_default lines initial_loader) as [st | | |] eqn:E;
    cbn [bind] in H; try discriminate.
  injection H as <-.
  destruct (do_lines_trace _ _ _ E) as [Hv [Hn [k [ixs [ns [Hm [Li [Ln Hin]]]]]]]].
  cbn [initial_loader tempVertices tempNormals mesh app] in Hv, Hn, Hm.
  exists k, ixs, ns. rewrite copy_vertices_spec, Hm, Hv.
  cbn [vertices normals indices edgeIndices empty_mesh app].
  rewrite <- Hn. repeat split; assumption.
Qed.

End LoaderRuns.

(* ================================================================== *)
(** * The loader on concrete sources *)

(** The example scenario of the specification. *)
Example triangle_is_loaded :
  loadOBJ integer_get vec3_zero triangle_source = Ok triangle_mesh.
Proof. vm_compute. reflexivity. Qed.

(** Corner tokens: the usual form, no slash, one slash, an empty normal
    field, a zero index with text after the digits, an empty position
    field. *)
Example corner_tokens :
  read_corner "1//1" = Ok (0, 0)
  /\ read_corner "3" = Ok (2, 2)
  /\ read_corner "1/2" = Ok (0, 0)
  /\ read_corner "1//" = Throw invalid_argument
  /\ read_corner "0/5/7x" = Ok (4294967295, 6)
  /\ read_corner "/1" = Throw invalid_argument.
Proof. repeat split; vm_compute; reflexivity. Qed.

(** A face whose second corner names a normal that was never staged. *)
Example unstaged_normal :
  loadOBJ integer_get vec3_zero (unlines ["vn 0 0 1"; "f 1//1 2//2 3//1"]%string)
  = Undefined oob_tempNormals.
Proof. vm_compute. reflexivity. Qed.

(* ================================================================== *)
(** * The loader: the claims *)

(** C1, evaluated at a quadrilateral with four different normals.  The
    claim asks that the second triangle [(c0, c2, c3)] receive the
    normals of the corners [c0, c2, c3].  The loop over [j] reads
    [faceNormals[j]] for [j = 0, 1, 2] in every round, so the second
    triangle receives the normals of [c0, c1, c2] once more. *)
Theorem quad_normals_repeat_first_corners :
  exists m,
    loadOBJ integer_get vec3_zero quad_source = Ok m
    /\ indices m = [0; 1; 2; 0; 2; 3]
    /\ normals m = flat_map flatten [n1; n2; n3; n1; n2; n3]
    /\ normals m <> flat_map flatten [n1; n2; n3; n1; n3; n4].
Proof.
  eexists. split; [vm_compute; reflexivity |].
  cbn [indices normals]. repeat split. discriminate.
Qed.

(** C2: a face line of [n >= 3] corners [c0 .. c(n-1)] whose first three
    normal indices are in range appends to [indices] the [n - 2] triples
    [(c0, ci, c(i+1))], [i = 1 .. n-2], in that order, and nothing
    else. *)
Theorem face_fan_indices :
  forall rest st faceVerts faceNormals,
    read_corners (tokens rest) [] [] = Ok (faceVerts, faceNormals) ->
    (3 <= List.length faceVerts)%nat ->
    vsize faceVerts < size_t_modulus ->
    first_three_valid (tempNormals st) faceNormals ->
    exists m',
      face_line rest st = Ok (mkloader m' (tempVertices st) (tempNormals st))
      /\ indices m' = (indices (mesh st) ++ flat_map triple (fan_triangles 0 faceVerts))%list
      /\ List.length (fan_triangles 0 faceVerts) = (List.length faceVerts - 2)%nat.
Proof.
  intros rest st fv fn Hc H3 Hsz Hval.
  destruct (read_corners_length _ _ _ _ _ Hc) as [Hfv Hfn].
  unfold face_line. rewrite Hc. cbn [bind].
  rewrite triangulate_polygon by (try assumption; lia). cbn [bind].
  eexists. split; [reflexivity |]. cbn [indices]. split; [reflexivity |].
  unfold fan_triangles. rewrite length_map, length_seq. reflexivity.
Qed.

(** The four-corner face of the specification, [f 1//1 2//1 3//1 4//1],
    gives exactly the two triangles [(0,1,2)] and [(0,2,3)]. *)
Lemma face_fan_indices_witness :
  exists m',
    face_line "1//1 2//1 3//1 4//1" (mkloader empty_mesh [] [n3])
    = Ok (mkloader m' [] [n3])
    /\ indices m' = [0; 1; 2; 0; 2; 3]
    /\ List.length (fan_triangles 0 [0; 1; 2; 3]) = 2%nat.
Proof.
  apply (face_fan_indices "1//1 2//1 3//1 4//1" (mkloader empty_mesh [] [n3])
           [0; 1; 2; 3] [0; 0; 0; 0]).
  - reflexivity.
  - cbn; lia.
  - reflexivity.
  - intros j Hj. unfold valid_normal, vsize.
    destruct j as [| [| [| j]]]; cbn; lia.
Defined.

(** C3: whenever [loadOBJ] returns a mesh, the number of indices is a
    multiple of three and [normals] holds exactly one 3-float normal per
    index. *)
Theorem indices_and_normals_in_lockstep :
  forall num_get vec3_default text m,
    loadOBJ num_get vec3_default text = Ok m ->
    (List.length (indices m) mod 3 = 0)%nat
    /\ exists ns : list vec3,
         normals m = flat_map flatten ns
         /\ List.length ns = List.length (indices m).
Proof.
  intros num_get vec3_default text m H. unfold loadOBJ in H.
  destruct (load_lines_result _ _ _ _ H) as [k [ixs [ns [Hm [Li [Ln _]]]]]].
  subst m. cbn [indices normals]. split.
  - rewrite Li, Nat.mul_comm. apply Nat.Div0.mod_mul.
  - exists ns. split; [reflexivity | lia].
Qed.

Lemma indices_and_normals_in_lockstep_witness :
  loadOBJ integer_get vec3_zero triangle_source = Ok triangle_mesh
  /\ (List.length (indices triangle_mesh) mod 3 = 0)%nat
  /\ exists ns : list vec3,
       normals triangle_mesh = flat_map flatten ns
       /\ List.length ns = List.length (indices triangle_mesh).
Proof.
  split; [vm_compute; reflexivity |].
  apply (indices_and_normals_in_lockstep integer_get vec3_zero triangle_source).
  vm_compute; reflexivity.
Defined.

(** C4 fails: a file whose only face line has two corners is loaded
    without any error; the face contributes nothing. *)
Lemma two_corner_face_is_accepted :
  face_corner_counts (getlines two_corner_source) = [2%nat]
  /\ loadOBJ integer_get vec3_zero two_corner_source
     = Ok (mkMesh [f0; f0; f0; f1; f0; f0] [] [] [])
  /\ ~ fatal (loadOBJ integer_get vec3_zero two_corner_source).
Proof.
  split; [vm_compute; reflexivity |].
  assert (E : loadOBJ integer_get vec3_zero two_corner_source
              = Ok (mkMesh [f0; f0; f0; f1; f0; f0] [] [] []))
    by (vm_compute; reflexivity).
  split; [exact E |]. intros [e He]. rewrite E in He. discriminate.
Qed.

(** C4 as the code has it: a face line of one or two corners, all of
    which convert, is passed over: the loader goes on to the next line
    with its mesh and staging lists as they were. *)
Theorem short_face_is_passed_over :
  forall num_get vec3_default line more st faceVerts faceNormals,
    is_f_line line = true ->
    read_corners (tokens (rest_after 2 line)) [] [] = Ok (faceVerts, faceNormals) ->
    (1 <= List.length faceVerts <= 2)%nat ->
    do_lines num_get vec3_default (line :: more) st
    = do_lines num_get vec3_default more st.
Proof.
  intros num_get vec3_default line more st fv fn Hf Hc Hlen.
  cbn [do_lines]. rewrite do_line_f by exact Hf.
  unfold face_line. rewrite Hc. cbn [bind].
  rewrite triangulate_short by exact Hlen. cbn [bind].
  destruct st; reflexivity.
Qed.

Lemma short_face_is_passed_over_witness :
  do_lines integer_get vec3_zero ["f 1//1 2//1"; "v 1 0 0"]%string initial_loader
  = do_lines integer_get vec3_zero ["v 1 0 0"]%string initial_loader.
Proof.
  apply (short_face_is_passed_over integer_get vec3_zero "f 1//1 2//1"
           ["v 1 0 0"%string] initial_loader [0; 1] [0; 0]).
  - reflexivity.
  - reflexivity.
  - cbn; lia.
Defined.

Lemma do_lines_app :
  forall num_get vec3_default pre post st,
    do_lines num_get vec3_default (pre ++ post) st
    = (st' <- do_lines num_get vec3_default pre st ;;
       do_lines num_get vec3_default post st').
Proof.
  intros num_get vec3_default. induction pre as [| l pre IH]; intros post st.
  - reflexivity.
  - cbn [app do_lines].
    destruct (do_line num_get vec3_default l st); cbn [bind]; [apply IH | | |]; reflexivity.
Qed.

(** C5 fails: the third coordinate of the first position is not a
    number and the first corner of the face carries letters after its
    digits, yet the file is loaded: the coordinate becomes zero and the
    letters are ignored. *)
Lemma malformed_tokens_are_accepted :
  loadOBJ integer_get vec3_zero malformed_source
  = Ok (mkMesh [f1; f0; f0; f1; f0; f0; f0; f1; f0]
               [f0; f0; f1; f0; f0; f1; f0; f0; f1]
               [0; 1; 2] [])
  /\ ~ fatal (loadOBJ integer_get vec3_zero malformed_source).
Proof.
  assert (E : loadOBJ integer_get vec3_zero malformed_source
              = Ok (mkMesh [f1; f0; f0; f1; f0; f0; f0; f1; f0]
                           [f0; f0; f1; f0; f0; f1; f0; f0; f1]
                           [0; 1; 2] []))
    by (vm_compute; reflexivity).
  split; [exact E |]. intros [e He]. rewrite E in He. discriminate.
Qed.

(** C5 as the code has it.  A [v] or [vn] line never fails, whatever its
    text: it stages one more position or normal.  A face line fails when
    [std::stoul] throws on one of its corner tokens: if the lines before
    it were processed, the exception leaves [loadOBJ] and no mesh is
    returned.  A face line all of whose corner tokens convert does not
    fail with an exception. *)
Theorem only_face_tokens_are_fatal :
  forall num_get vec3_default,
    (forall line st,
        is_v_line line = true \/ is_vn_line line = true ->
        exists st',
          do_line num_get vec3_default line st = Ok st'
          /\ mesh st' = mesh st
          /\ (List.length (tempVertices st') + List.length (tempNormals st')
              = S (List.length (tempVertices st) + List.length (tempNormals st)))%nat)
    /\ (forall pre line post token e,
           is_f_line line = true ->
           In token (tokens (rest_after 2 line)) ->
           read_corner token = Throw e ->
           returns (do_lines num_get vec3_default pre initial_loader) ->
           fatal (load_lines num_get vec3_default (pre ++ line :: post)))
    /\ (forall line st,
           is_f_line line = true ->
           (forall token,
               In token (tokens (rest_after 2 line)) -> returns (read_corner token)) ->
           ~ fatal (do_line num_get vec3_default line st)).
Proof.
  intros num_get vec3_default. split; [| split].
  - intros line st [Hv | Hvn]; eexists.
    + rewrite do_line_v by exact Hv. split; [reflexivity |].
      cbn [mesh tempVertices tempNormals]. rewrite length_app. cbn [List.length].
      split; [reflexivity | lia].
    + rewrite do_line_vn by exact Hvn. split; [reflexivity |].
      cbn [mesh tempVertices tempNormals]. rewrite length_app. cbn [List.length].
      split; [reflexivity | lia].
  - intros pre line post token e Hf Hin Ht [st Hpre].
    unfold load_lines. rewrite do_lines_app, Hpre. cbn [bind do_lines].
    rewrite do_line_f by exact Hf. unfold face_line.
    destruct (read_corners_throw _ [] [] _ _ Hin Ht) as [e' He'].
    rewrite He'. cbn [bind]. exists e'. reflexivity.
  - intros line st Hf Hall [e He]. rewrite do_line_f in He by exact Hf.
    unfold face_line in He.
    destruct (read_corners_ok _ [] [] Hall) as [[fv fn] Hc]. rewrite Hc in He.
    cbn [bind] in He.
    destruct (read_corners_length _ _ _ _ _ Hc) as [Hfv Hfn].
    destruct (triangulate_shape (tempNormals st) fv fn (mesh st) ltac:(lia))
      as [[k [m' [Ht _]]] | [Ht | [_ Ht]]]; rewrite Ht in He; discriminate.
Qed.

Lemma only_face_tokens_are_fatal_witness :
  fatal (load_lines integer_get vec3_zero
           (["vn 0 0 1"%string] ++ "f 1//1 x//1 3//1"%string :: ["v 0 0 0"%string])%list)
  /\ ~ fatal (do_line integer_get vec3_zero "f 1//1 2//1 3//1" initial_loader).
Proof.
  destruct (only_face_tokens_are_fatal integer_get vec3_zero) as [_ [Hthrow Hconv]].
  split.
  - apply (Hthrow ["vn 0 0 1"%string] "f 1//1 x//1 3//1"%string ["v 0 0 0"%string]
             "x//1"%string invalid_argument).
    + reflexivity.
    + vm_compute. right. left. reflexivity.
    + reflexivity.
    + eexists. vm_compute. reflexivity.
  - apply (Hconv "f 1//1 2//1 3//1"%string initial_loader).
    + reflexivity.
    + intros token Hin. vm_compute in Hin.
      destruct Hin as [<- | [<- | [<- | []]]]; eexists; vm_compute; reflexivity.
Defined.

Lemma find_char_app_hit :
  forall c a s,
    find_char c a = None -> find_char c (a ++ String c s) = Some (String.length a).
Proof.
  intros c. induction a as [| d a IH]; intros s H.
  - cbn. rewrite Ascii.eqb_refl. reflexivity.
  - cbn [find_char] in H. cbn [String.append find_char String.length].
    destruct (Ascii.eqb d c); [discriminate |].
    destruct (find_char c a); [discriminate |].
    rewrite IH by reflexivity. reflexivity.
Qed.

Lemma substring_whole :
  forall s k, (String.length s <= k)%nat -> substring 0 k s = s.
Proof.
  induction s as [| c s IH]; intros k H.
  - destruct k; reflexivity.
  - destruct k as [| k]; cbn [String.length] in H; [lia |].
    cbn [substring]. rewrite IH by lia. reflexivity.
Qed.

Lemma substring_app_prefix :
  forall a s, substring 0 (String.length a) (a ++ s) = a.
Proof.
  induction a as [| c a IH]; intros s.
  - cbn. destruct s; reflexivity.
  - cbn [String.append String.length substring]. rewrite IH. reflexivity.
Qed.

Lemma substring_app_skip :
  forall a s n m, substring (String.length a + n) m (a ++ s) = substring n m s.
Proof.
  induction a as [| c a IH]; intros s n m.
  - reflexivity.
  - cbn [String.append String.length Nat.add substring]. apply IH.
Qed.


Lemma append_length :
  forall a b, String.length (a ++ b) = (String.length a + String.length b)%nat.
Proof.
  induction a as [| c a IH]; intros b; [reflexivity |].
  cbn [String.append String.length]. rewrite IH. reflexivity.
Qed.


Lemma bare_token_normal_is_position :
  forall token v n,
    find token "/" 0 = npos -> read_corner token = Ok (v, n) -> n = v.
Proof.
  intros token v n Hfind H. unfold read_corner in H.
  rewrite Hfind in H.
  change (to_size_t (npos + 1)) with 0 in H. rewrite Hfind in H.
  change (to_size_t (npos + 1)) with 0 in H.
  destruct (substr token 0 npos) as [s | | |]; cbn [bind] in H; try discriminate.
  destruct (stoul s) as [r | | |]; cbn [bind] in H; try discriminate.
  injection H as <- <-. reflexivity.
Qed.






Lemma flatten_chunk :
  forall vs k v,
    nth_error vs k = Some v ->
    firstn 3 (skipn (3 * k) (flat_map flatten vs)) = flatten v.
Proof.
  induction vs as [| w vs IH]; intros k v H.
  - destruct k; discriminate.
  - destruct k as [| k].
    + injection H as ->. reflexivity.
    + cbn [nth_error] in H.
      replace (3 * S k)%nat with (S (S (S (3 * k)))) by lia.
      cbn [flat_map flatten app skipn]. apply IH. exact H.
Qed.

(** C7: the positions of the returned mesh are the [v] lines of the
    file, in the order of the file and whatever stands between them,
    each flattened as x, y, z: the [k]-th [v] line fills the floats
    [3k], [3k+1], [3k+2] of [vertices].  The normals of the mesh are
    flattened the same way, each being the normal staged by some [vn]
    line. *)
Theorem positions_in_file_order :
  forall num_get vec3_default text m,
    size text < size_t_modulus ->
    loadOBJ num_get vec3_default text = Ok m ->
    let position line := read_vec3 num_get vec3_default (payload 2 line) in
    let staged line := read_vec3 num_get vec3_default (payload 3 line) in
    vertices m
    = flat_map flatten (map position (filter is_v_line (getlines text)))
    /\ (forall k line,
           nth_error (filter is_v_line (getlines text)) k = Some line ->
           firstn 3 (skipn (3 * k) (vertices m)) = flatten (position line))
    /\ exists ns : list vec3,
         normals m = flat_map flatten ns
         /\ Forall (fun n => In n (map staged (filter is_vn_line (getlines text)))) ns.
Proof.
  intros num_get vec3_default text m Hsz H position staged. unfold loadOBJ in H.
  destruct (load_lines_result _ _ _ _ H) as [k [ixs [ns [Hm [_ [_ Hin]]]]]].
  assert (Hshort : forall (f : string -> bool) line,
             In line (filter f (getlines text)) -> size line < size_t_modulus).
  { intros f line Hl. apply filter_In in Hl. destruct Hl as [Hl _].
    apply getlines_length in Hl. lia. }
  assert (Hpos : map (position_of num_get vec3_default) (filter is_v_line (getlines text))
                 = map position (filter is_v_line (getlines text))).
  { apply map_ext_in. intros line Hl. unfold position_of, position.
    change 2 with (Z.of_nat 2). rewrite rest_after_payload; [reflexivity |].
    eapply Hshort. exact Hl. }
  assert (Hst : map (staged_normal_of num_get vec3_default)
                    (filter is_vn_line (getlines text))
                = map staged (filter is_vn_line (getlines text))).
  { apply map_ext_in. intros line Hl. unfold staged_normal_of, staged.
    change 3 with (Z.of_nat 3). rewrite rest_after_payload; [reflexivity |].
    eapply Hshort. exact Hl. }
  rewrite Hpos in Hm. rewrite Hst in Hin. subst m. cbn [vertices normals].
  split; [reflexivity |]. split.
  - intros j line Hj. apply flatten_chunk.
    rewrite nth_error_map, Hj. reflexivity.
  - exists ns. split; [reflexivity | exact Hin].
Qed.

Lemma positions_in_file_order_witness :
  vertices triangle_mesh
  = flat_map flatten
      (map (fun line => read_vec3 integer_get vec3_zero (payload 2 line))
           (filter is_v_line (getlines triangle_source)))
  /\ (forall k line,
         nth_error (filter is_v_line (getlines triangle_source)) k = Some line ->
         firstn 3 (skipn (3 * k) (vertices triangle_mesh))
         = flatten (read_vec3 integer_get vec3_zero (payload 2 line)))
  /\ exists ns : list vec3,
       normals triangle_mesh = flat_map flatten ns
       /\ Forall (fun n =>
                    In n (map (fun line => read_vec3 integer_get vec3_zero (payload 3 line))
                              (filter is_vn_line (getlines triangle_source)))) ns.
Proof.
  apply (positions_in_file_order integer_get vec3_zero triangle_source triangle_mesh).
  - vm_compute. reflexivity.
  - vm_compute. reflexivity.
Defined.

(** C10: on a face line with at least one corner token, no access of the
    triangulation loop to [faceVerts] or [faceNormals] is out of range. *)
Theorem face_vectors_read_in_range :
  forall rest st,
    tokens rest <> [] ->
    face_line rest st <> Undefined oob_faceVerts
    /\ face_line rest st <> Undefined oob_faceNormals.
Proof.
  intros rest st Hne.
  destruct (face_line_shape rest st)
    as [[e He] | [[k [m' [He _]]] | [He | [Hnil _]]]];
    [rewrite He | rewrite He | rewrite He | contradiction]; split; discriminate.
Qed.

Lemma face_vectors_read_in_range_witness :
  face_line "1//1 2//1 3//1" initial_loader <> Undefined oob_faceVerts
  /\ face_line "1//1 2//1 3//1" initial_loader <> Undefined oob_faceNormals.
Proof.
  apply (face_vectors_read_in_range "1//1 2//1 3//1" initial_loader).
  vm_compute. discriminate.
Defined.

(** The face line that C10 leaves out: without a corner token the loop
    bound wraps around and the first round reads [faceVerts[0]]. *)
Lemma face_without_corners :
  forall rest st, tokens rest = [] -> face_line rest st = Undefined oob_faceVerts.
Proof.
  intros rest st H. unfold face_line. rewrite H. reflexivity.
Qed.

(** The fuel given to the triangulation loop is never used up. *)
Lemma fan_fuel :
  forall num_get vec3_default lines st,
    do_lines num_get vec3_default lines st <> OutOfFuel.
Proof.
  intros num_get vec3_default. induction lines as [| line lines IH]; intros st.
  - discriminate.
  - cbn [do_lines].
    destruct (do_line num_get vec3_default line st) as [st1 | e | u |] eqn:E;
      cbn [bind]; try discriminate; [apply IH |].
    exfalso. destruct (is_v_line line) eqn:Hv;
      [rewrite do_line_v in E by exact Hv; discriminate |].
    destruct (is_vn_line line) eqn:Hvn;
      [rewrite do_line_vn in E by exact Hvn; discriminate |].
    destruct (is_f_line line) eqn:Hf;
      [| rewrite do_line_other in E by assumption; discriminate].
    rewrite do_line_f in E by exact Hf.
    destruct (face_line_shape (rest_after 2 line) st)
      as [[e He] | [[k [m' [He _]]] | [He | [_ He]]]]; rewrite He in E; discriminate.
Qed.

Lemma loadOBJ_total :
  forall num_get vec3_default text,
    loadOBJ num_get vec3_default text <> OutOfFuel.
Proof.
  intros num_get vec3_default text. unfold loadOBJ, load_lines.
  pose proof (fan_fuel num_get vec3_default (getlines text) initial_loader) as H.
  destruct (do_lines num_get vec3_default (getlines text) initial_loader);
    cbn [bind]; try discriminate. contradiction.
Qed.

(* ================================================================== *)
(** * Comparing floats *)

Lemma SFcompare_antisym :
  forall a b c, SFcompare a b = Some c -> SFcompare b a = Some (CompOpp c).
Proof.
  intros a b c H.
  destruct a as [sa | sa | | sa ma ea], b as [sb | sb | | sb mb eb];
    cbn in H |- *; try discriminate; injection H as <-;
    try (destruct sa; reflexivity); try (destruct sb; reflexivity);
    try (destruct sa, sb; reflexivity).
  rewrite (Z.compare_antisym ea eb), !Pos.compare_cont_spec, (Pos.compare_antisym ma mb).
  destruct sa, sb; try reflexivity;
    destruct (ea ?= eb); cbn; try reflexivity;
    destruct (ma ?= mb)%positive; reflexivity.
Qed.

Lemma SFcompare_defined :
  forall a b, is_nan a = false -> is_nan b = false -> exists c, SFcompare a b = Some c.
Proof.
  intros a b Ha Hb.
  destruct a, b; cbn in Ha, Hb |- *; try discriminate; eexists; reflexivity.
Qed.

Lemma fltb_false_fleb :
  forall a b, is_nan a = false -> is_nan b = false -> fltb a b = false -> fleb b a = true.
Proof.
  intros a b Ha Hb H. unfold fltb, fleb, SFltb, SFleb in *.
  destruct (SFcompare_defined a b Ha Hb) as [c Hc].
  rewrite (SFcompare_antisym a b c Hc). rewrite Hc in H.
  destruct c; try discriminate; reflexivity.
Qed.

Lemma fltb_not_nan :
  forall a b, fltb a b = true -> is_nan a = false /\ is_nan b = false.
Proof.
  intros a b H. unfold fltb, SFltb in H.
  destruct a, b; cbn in H |- *; try discriminate; split; reflexivity.
Qed.

(** Above [maxDistance] is not below [minDistance]. *)
Lemma above_max_not_below_min :
  forall v, fltb maxDistance v = true -> fltb v minDistance = false.
Proof.
  intros v H. unfold fltb, SFltb, maxDistance, minDistance in *.
  destruct v as [s | s | | s m e];
    cbv beta iota delta [SFcompare] in H |- *; try discriminate.
  - destruct s; [discriminate | reflexivity].
  - destruct s; [discriminate |].
    destruct (Z.compare_spec (-18) e) as [He | He | He];
      destruct (Z.compare_spec e (-23)) as [He' | He' | He']; try lia; reflexivity.
Qed.

Lemma SFcompare_Eq_finite :
  forall s m e b,
    SFcompare (S754_finite s m e) b = Some Eq -> b = S754_finite s m e.
Proof.
  intros s m e b H.
  destruct b as [sb | sb | | sb mb eb]; cbv beta iota delta [SFcompare] in H;
    try discriminate.
  - destruct s; discriminate.
  - destruct sb; discriminate.
  - destruct s, sb; try discriminate;
      destruct (Z.compare_spec e eb) as [He | He | He]; try discriminate;
      subst eb; rewrite Pos.compare_cont_spec in H; cbn [Pos.switch_Eq] in H;
      destruct (Pos.compare_spec m mb) as [Hm | Hm | Hm]; cbn in H;
      try discriminate; subst; reflexivity.
Qed.

(** Equal to a finite, non-zero float under [<=] both ways means being
    that float. *)
Lemma fleb_antisym_finite :
  forall v s m e,
    fleb v (S754_finite s m e) = true -> fltb v (S754_finite s m e) = false ->
    v = S754_finite s m e.
Proof.
  intros v s m e Hle Hlt. unfold fleb, fltb, SFleb, SFltb in *.
  destruct v as [sv | sv | | sv mv ev]; cbn in Hle, Hlt; try discriminate.
  - destruct s; discriminate.
  - destruct sv; discriminate.
  - destruct sv, s; try discriminate;
      destruct (Z.compare_spec ev e) as [He | He | He]; try discriminate;
      subst ev; rewrite Pos.compare_cont_spec in Hle, Hlt; cbn [Pos.switch_Eq] in *;
      destruct (Pos.compare_spec mv m) as [Hm | Hm | Hm]; cbn in Hle, Hlt;
      try discriminate; subst; reflexivity.
Qed.

(* ================================================================== *)
(** * The clamp *)

Lemma clamp_below :
  forall v, fltb v minDistance = true -> glm_clamp v minDistance maxDistance = minDistance.
Proof.
  intros v H. unfold glm_clamp, glm_max. rewrite H. reflexivity.
Qed.

Lemma clamp_above :
  forall v, fltb maxDistance v = true -> glm_clamp v minDistance maxDistance = maxDistance.
Proof.
  intros v H. unfold glm_clamp, glm_max, glm_min.
  rewrite (above_max_not_below_min v H), H. reflexivity.
Qed.

Lemma clamp_within :
  forall v,
    fltb v minDistance = false -> fltb maxDistance v = false ->
    glm_clamp v minDistance maxDistance = v.
Proof.
  intros v H1 H2. unfold glm_clamp, glm_max, glm_min. rewrite H1, H2. reflexivity.
Qed.

Lemma in_range_not_below : forall v, in_range v = true -> fltb v minDistance = false.
Proof.
  intros v H. unfold in_range in H. apply andb_prop in H. destruct H as [H _].
  unfold fleb, fltb, SFleb, SFltb in *.
  destruct (SFcompare minDistance v) as [c |] eqn:E; [| discriminate].
  rewrite (SFcompare_antisym _ _ _ E). destruct c; try discriminate; reflexivity.
Qed.

Lemma in_range_not_above : forall v, in_range v = true -> fltb maxDistance v = false.
Proof.
  intros v H. unfold in_range in H. apply andb_prop in H. destruct H as [_ H].
  unfold fleb, fltb, SFleb, SFltb in *.
  destruct (SFcompare v maxDistance) as [c |] eqn:E; [| discriminate].
  rewrite (SFcompare_antisym _ _ _ E). destruct c; try discriminate; reflexivity.
Qed.

Lemma clamp_in_range :
  forall v, is_nan v = false -> in_range (glm_clamp v minDistance maxDistance) = true.
Proof.
  intros v Hv.
  destruct (fltb v minDistance) eqn:H1; [rewrite clamp_below by exact H1; reflexivity |].
  destruct (fltb maxDistance v) eqn:H2; [rewrite clamp_above by exact H2; reflexivity |].
  rewrite clamp_within by assumption. unfold in_range.
  rewrite (fltb_false_fleb v minDistance Hv eq_refl H1).
  rewrite (fltb_false_fleb maxDistance v eq_refl Hv H2). reflexivity.
Qed.

(** The clamp of a NaN is a NaN: both comparisons are false. *)
Lemma clamp_nan : glm_clamp S754_nan minDistance maxDistance = S754_nan.
Proof. reflexivity. Qed.

Lemma clamp_at_or_below :
  forall v, fleb v minDistance = true -> glm_clamp v minDistance maxDistance = minDistance.
Proof.
  intros v H. destruct (fltb v minDistance) eqn:Hlt; [apply clamp_below; exact Hlt |].
  assert (Hv : v = minDistance) by (apply fleb_antisym_finite; assumption).
  subst v. reflexivity.
Qed.

Lemma clamp_at_or_above :
  forall v, fleb maxDistance v = true -> glm_clamp v minDistance maxDistance = maxDistance.
Proof.
  intros v H. destruct (fltb maxDistance v) eqn:Hlt; [apply clamp_above; exact Hlt |].
  assert (Hv : v = maxDistance).
  { unfold fleb, fltb, SFleb, SFltb in H, Hlt.
    destruct (SFcompare maxDistance v) as [[| |] |] eqn:E; try discriminate.
    apply SFcompare_Eq_finite in E. exact E. }
  subst v. reflexivity.
Qed.

(* ================================================================== *)
(** * Rounding never invents a NaN *)

Lemma signed_not_nan : forall s f, signed s f -> is_nan f = false.
Proof. intros s f H. destruct f; [reflexivity | reflexivity | destruct H | reflexivity]. Qed.

Lemma shr_1_nonneg : forall mrs, 0 <= shr_m mrs -> 0 <= shr_m (shr_1 mrs).
Proof.
  intros [m r s] H. cbn [shr_m] in H.
  destruct m as [| p | p]; [cbn; lia | | lia].
  destruct p; cbn; lia.
Qed.

Lemma iter_pos_invariant :
  forall (A : Type) (P : A -> Prop) (f : A -> A),
    (forall a, P a -> P (f a)) -> forall p a, P a -> P (iter_pos f p a).
Proof.
  intros A P f Hf. induction p as [p IH | p IH |]; intros a Ha; cbn [iter_pos].
  - apply IH, IH, Hf, Ha.
  - apply IH, IH, Ha.
  - apply Hf, Ha.
Qed.

Lemma shr_nonneg :
  forall mrs e n, 0 <= shr_m mrs -> 0 <= shr_m (fst (shr mrs e n)).
Proof.
  intros mrs e n H. unfold shr. destruct n as [| p | p]; cbn [fst]; try exact H.
  apply (iter_pos_invariant _ (fun r => 0 <= shr_m r) shr_1 shr_1_nonneg). exact H.
Qed.

Lemma shr_record_of_loc_m : forall m l, shr_m (shr_record_of_loc m l) = m.
Proof. intros m l. destruct l as [| []]; reflexivity. Qed.

Lemma round_nearest_even_nonneg :
  forall m l, 0 <= m -> 0 <= round_nearest_even m l.
Proof.
  intros m l H. unfold round_nearest_even.
  destruct l as [| []]; try lia. destruct (Z.even m); lia.
Qed.

Lemma binary_round_aux_signed :
  forall sx mx ex lx, 0 <= mx -> signed sx (binary_round_aux prec emax sx mx ex lx).
Proof.
  intros sx mx ex lx H. unfold binary_round_aux.
  destruct (shr_fexp prec emax mx ex lx) as [mrs' e'] eqn:E1.
  assert (H1 : 0 <= shr_m mrs').
  { replace mrs' with (fst (shr_fexp prec emax mx ex lx)) by (rewrite E1; reflexivity).
    unfold shr_fexp. apply shr_nonneg. rewrite shr_record_of_loc_m. exact H. }
  destruct (shr_fexp prec emax
              (round_nearest_even (shr_m mrs') (loc_of_shr_record mrs')) e' loc_Exact)
    as [mrs'' e''] eqn:E2.
  assert (H2 : 0 <= shr_m mrs'').
  { replace mrs'' with
      (fst (shr_fexp prec emax
              (round_nearest_even (shr_m mrs') (loc_of_shr_record mrs')) e' loc_Exact))
      by (rewrite E2; reflexivity).
    unfold shr_fexp. apply shr_nonneg. rewrite shr_record_of_loc_m.
    apply round_nearest_even_nonneg. exact H1. }
  destruct (shr_m mrs'') as [| p | p]; [reflexivity | | lia].
  destruct (e'' <=? emax - prec); reflexivity.
Qed.

Lemma binary_round_signed :
  forall sx mx ex, signed sx (binary_round prec emax sx mx ex).
Proof.
  intros sx mx ex. unfold binary_round.
  destruct (shl_align mx ex _) as [mz ez].
  apply binary_round_aux_signed. lia.
Qed.

Lemma binary_normalize_not_nan :
  forall m e sz, is_nan (binary_normalize prec emax m e sz) = false.
Proof.
  intros m e sz. unfold binary_normalize.
  destruct m; [reflexivity | |]; eapply signed_not_nan; apply binary_round_signed.
Qed.

Lemma fadd_finite_not_nan :
  forall a b, is_nan a = false -> is_finite b = true -> is_nan (fadd a b) = false.
Proof.
  intros a b Ha Hb. unfold fadd.
  destruct a as [sa | sa | | sa ma ea], b as [sb | sb | | sb mb eb];
    try discriminate; cbn [SFadd]; try reflexivity.
  - destruct sa, sb; reflexivity.
  - apply binary_normalize_not_nan.
Qed.

Lemma fsub_finite_not_nan :
  forall a b, is_nan a = false -> is_finite b = true -> is_nan (fsub a b) = false.
Proof.
  intros a b Ha Hb. unfold fsub.
  destruct a as [sa | sa | | sa ma ea], b as [sb | sb | | sb mb eb];
    try discriminate; cbn [SFsub]; try reflexivity.
  - destruct sa, sb; reflexivity.
  - apply binary_normalize_not_nan.
Qed.

(** With a finite step the zoom keys cannot turn a distance into a
    NaN. *)
Lemma zoom_not_nan :
  forall keys deltaTime d,
    is_nan d = false -> is_finite (fmul zoomSpeed deltaTime) = true ->
    is_nan (zoom keys deltaTime d) = false.
Proof.
  intros keys dt d Hd Hstep. unfold zoom.
  destruct (key_Q keys), (key_E keys);
    repeat first [apply fadd_finite_not_nan | apply fsub_finite_not_nan];
    assumption.
Qed.

(* ================================================================== *)
(** * A frame without elapsed time *)

Lemma same_value_refl : forall a, same_value a a.
Proof. intros a. left. reflexivity. Qed.

Lemma same_value_trans :
  forall a b c, same_value a b -> same_value b c -> same_value a c.
Proof.
  intros a b c [-> | [Ha Hb]] [-> | [Hb' Hc]].
  - left. reflexivity.
  - right. split; assumption.
  - right. split; assumption.
  - right. split; assumption.
Qed.

Lemma fmul_zero :
  forall s m e deltaTime,
    is_zero deltaTime = true -> is_zero (fmul (S754_finite s m e) deltaTime) = true.
Proof. intros s m e dt H. destruct dt; try discriminate. reflexivity. Qed.

Lemma fadd_zero_same : forall a b, is_zero b = true -> same_value (fadd a b) a.
Proof.
  intros a b H. destruct b as [sb | | |]; try discriminate.
  destruct a as [sa | sa | | sa ma ea]; try (left; reflexivity).
  right. destruct sa, sb; split; reflexivity.
Qed.

Lemma fsub_zero_same : forall a b, is_zero b = true -> same_value (fsub a b) a.
Proof.
  intros a b H. destruct b as [sb | | |]; try discriminate.
  destruct a as [sa | sa | | sa ma ea]; try (left; reflexivity).
  right. destruct sa, sb; split; reflexivity.
Qed.

Lemma rotate_zero_same :
  forall plus minus deltaTime angle,
    is_zero deltaTime = true -> same_value (rotate plus minus deltaTime angle) angle.
Proof.
  intros plus minus dt a H. unfold rotate.
  pose proof (fmul_zero false 8388608 (-22) dt H) as Hz.
  change (S754_finite false 8388608 (-22)) with rotationSpeed in Hz.
  destruct plus, minus.
  - eapply same_value_trans; [apply fsub_zero_same | apply fadd_zero_same]; exact Hz.
  - apply fadd_zero_same; exact Hz.
  - apply fsub_zero_same; exact Hz.
  - apply same_value_refl.
Qed.

Lemma rotate_plus_zero :
  forall plus minus angle,
    negative_zero angle = false -> rotate plus minus f0 angle = angle.
Proof.
  intros plus minus a H. unfold rotate.
  change (fmul rotationSpeed f0) with f0.
  destruct a as [[|] | sa | | sa ma ea]; try discriminate; destruct plus, minus; reflexivity.
Qed.

Lemma in_range_positive_finite :
  forall d, in_range d = true -> exists m e, d = S754_finite false m e.
Proof.
  intros d H. unfold in_range in H. apply andb_prop in H. destruct H as [H1 H2].
  destruct d as [s | s | | s m e]; try discriminate.
  - destruct s; discriminate.
  - destruct s; [discriminate | do 2 eexists; reflexivity].
Qed.

Lemma zoom_zero :
  forall keys deltaTime d,
    is_zero deltaTime = true -> in_range d = true -> zoom keys deltaTime d = d.
Proof.
  intros keys dt d Hdt Hd. unfold zoom.
  destruct (in_range_positive_finite d Hd) as [m [e ->]].
  destruct dt as [sd | | |]; try discriminate.
  destruct (key_Q keys), (key_E keys); reflexivity.
Qed.

(* ================================================================== *)
(** * Rounding is monotone at the two bounds *)

Lemma digits2_pos_bounds :
  forall p, 2 ^ (Zpos (digits2_pos p) - 1) <= Zpos p < 2 ^ Zpos (digits2_pos p).
Proof.
  induction p as [p IH | p IH |]; cbn [digits2_pos].
  - rewrite Pos2Z.inj_succ.
    replace (Z.succ (Zpos (digits2_pos p)) - 1) with (Z.succ (Zpos (digits2_pos p) - 1)) by lia.
    rewrite !Z.pow_succ_r by lia. lia.
  - rewrite Pos2Z.inj_succ.
    replace (Z.succ (Zpos (digits2_pos p)) - 1) with (Z.succ (Zpos (digits2_pos p) - 1)) by lia.
    rewrite !Z.pow_succ_r by lia. lia.
  - cbn. lia.
Qed.

Lemma Zdigits2_upper :
  forall m k, 0 <= m -> 0 <= k -> m < 2 ^ k -> Zdigits2 m <= k.
Proof.
  intros m k Hm Hk H. destruct m as [| p | p]; [cbn; lia | | lia].
  cbn [Zdigits2]. destruct (digits2_pos_bounds p) as [Hlo _].
  destruct (Z_le_gt_dec (Zpos (digits2_pos p)) k) as [Hle | Hgt]; [exact Hle |].
  assert (2 ^ k <= 2 ^ (Zpos (digits2_pos p) - 1)) by (apply Z.pow_le_mono_r; lia).
  lia.
Qed.

Lemma Zdigits2_lower :
  forall m k, 0 <= k -> 2 ^ k <= m -> k < Zdigits2 m.
Proof.
  intros m k Hk H.
  assert (0 < 2 ^ k) by (apply Z.pow_pos_nonneg; lia).
  destruct m as [| p | p]; [lia | | lia].
  cbn [Zdigits2]. destruct (digits2_pos_bounds p) as [_ Hhi].
  apply (Z.pow_lt_mono_r_iff 2); lia.
Qed.

Lemma shr_1_div2 :
  forall mrs, 0 <= shr_m mrs -> shr_m (shr_1 mrs) = shr_m mrs / 2.
Proof.
  intros [m r s] H. cbn [shr_m] in *.
  destruct m as [| p | p]; [reflexivity | | lia].
  destruct p as [p | p |]; cbn [shr_1 shr_m].
  - rewrite Pos2Z.inj_xI. apply Z.div_unique with 1; lia.
  - rewrite Pos2Z.inj_xO. apply Z.div_unique with 0; lia.
  - reflexivity.
Qed.

Lemma shr_iter_div :
  forall p mrs,
    0 <= shr_m mrs -> shr_m (iter_pos shr_1 p mrs) = shr_m mrs / 2 ^ Zpos p.
Proof.
  assert (Hnn : forall q r, 0 <= shr_m r -> 0 <= shr_m (iter_pos shr_1 q r))
    by (intros q r; apply (iter_pos_invariant _ (fun r => 0 <= shr_m r) shr_1 shr_1_nonneg)).
  induction p as [p IH | p IH |]; intros mrs H; cbn [iter_pos].
  - rewrite IH by (apply Hnn, shr_1_nonneg, H).
    rewrite IH by (apply shr_1_nonneg, H). rewrite shr_1_div2 by exact H.
    assert (0 < 2 ^ Zpos p) by (apply Z.pow_pos_nonneg; lia).
    rewrite !Z.div_div by lia. f_equal.
    rewrite Pos2Z.inj_xI, Z.pow_add_r, Z.pow_mul_r by lia.
    change (2 ^ 2) with 4. change (2 ^ 1) with 2.
    replace (4 ^ Zpos p) with (2 ^ Zpos p * 2 ^ Zpos p); [lia |].
    rewrite <- Z.pow_add_r by lia. replace (Zpos p + Zpos p) with (2 * Zpos p) by lia.
    rewrite Z.pow_mul_r by lia. reflexivity.
  - rewrite IH by (apply Hnn, H). rewrite IH by exact H.
    assert (0 < 2 ^ Zpos p) by (apply Z.pow_pos_nonneg; lia).
    rewrite Z.div_div by lia. f_equal.
    rewrite Pos2Z.inj_xO. rewrite <- Z.pow_add_r by lia. f_equal. lia.
  - rewrite shr_1_div2 by exact H. reflexivity.
Qed.

Lemma iter_xO_value :
  forall d m, Zpos (Pos.iter xO m d) = Zpos m * 2 ^ Zpos d.
Proof.
  intros d m. induction d as [| d IH] using Pos.peano_ind.
  - cbn. lia.
  - rewrite Pos.iter_succ, Pos2Z.inj_xO, IH, Pos2Z.inj_succ, Z.pow_succ_r by lia. lia.
Qed.

(** [shl_align] keeps the value and never raises the exponent. *)
Lemma shl_align_value :
  forall mx ex ex',
    snd (shl_align mx ex ex') <= ex
    /\ (ex' <= ex -> snd (shl_align mx ex ex') = ex')
    /\ Zpos (fst (shl_align mx ex ex')) = Zpos mx * 2 ^ (ex - snd (shl_align mx ex ex')).
Proof.
  intros mx ex ex'. unfold shl_align.
  destruct (ex' - ex) as [| d | d] eqn:E; cbn [fst snd].
  - rewrite Z.sub_diag. repeat split; lia.
  - rewrite Z.sub_diag. repeat split; lia.
  - rewrite iter_xO_value. replace (ex - ex') with (Zpos d) by lia. repeat split; lia.
Qed.

Lemma fexp_value : forall e, fexp prec emax e = Z.max (e - 24) (-149).
Proof. reflexivity. Qed.

(** What [shr_fexp] does to a non-negative mantissa: nothing when the
    exponent is already the one of the format, a division by a power of
    two otherwise. *)
Lemma shr_fexp_value :
  forall m e l,
    0 <= m ->
    let n := fexp prec emax (Zdigits2 m + e) - e in
    (n <= 0 -> shr_fexp prec emax m e l = (shr_record_of_loc m l, e))
    /\ (0 < n ->
        shr_m (fst (shr_fexp prec emax m e l)) = m / 2 ^ n
        /\ snd (shr_fexp prec emax m e l) = e + n).
Proof.
  intros m e l Hm n. unfold shr_fexp, shr. fold n.
  destruct n as [| p | p] eqn:E; split; intros Hn; try lia; try reflexivity.
  cbn [fst snd]. split; [| reflexivity].
  rewrite shr_iter_div by (rewrite shr_record_of_loc_m; exact Hm).
  rewrite shr_record_of_loc_m. reflexivity.
Qed.

Lemma round_nearest_even_bounds :
  forall m l, m <= round_nearest_even m l <= m + 1.
Proof.
  intros m l. unfold round_nearest_even.
  destruct l as [| []]; try lia. destruct (Z.even m); lia.
Qed.

Section Bound.

(** A positive float [K * 2^E] of the format, taken as a bound. *)
Variable K : positive.
Variable E : Z.
Hypothesis K_digits : Zpos K < 2 ^ 24.
Hypothesis E_range : -149 <= E <= 104.

Lemma pow2_split :
  forall a b, 0 <= a -> 0 <= b -> 2 ^ (a + b) = 2 ^ a * 2 ^ b.
Proof. intros a b Ha Hb. apply Z.pow_add_r; assumption. Qed.

Lemma shr_fexp_upper :
  forall m e l,
    0 <= m -> e <= E -> m <= Zpos K * 2 ^ (E - e) ->
    snd (shr_fexp prec emax m e l) <= E
    /\ 0 <= shr_m (fst (shr_fexp prec emax m e l))
    /\ shr_m (fst (shr_fexp prec emax m e l))
       <= Zpos K * 2 ^ (E - snd (shr_fexp prec emax m e l))
    /\ (m < Zpos K * 2 ^ (E - e) ->
        shr_m (fst (shr_fexp prec emax m e l))
        < Zpos K * 2 ^ (E - snd (shr_fexp prec emax m e l))).
Proof.
  intros m e l Hm He Hb.
  assert (Hp : 0 < 2 ^ (E - e)) by (apply Z.pow_pos_nonneg; lia).
  assert (Hd : Zdigits2 m <= 24 + (E - e)).
  { apply Zdigits2_upper; [exact Hm | lia |].
    rewrite pow2_split by lia. nia. }
  destruct (shr_fexp_value m e l Hm) as [Hsame Hshift].
  set (n := fexp prec emax (Zdigits2 m + e) - e) in *.
  assert (Hn : e + n <= E) by (unfold n; rewrite fexp_value; lia).
  destruct (Z_le_gt_dec n 0) as [Hle | Hgt].
  - rewrite (Hsame Hle). cbn [fst snd]. rewrite shr_record_of_loc_m.
    repeat split; auto.
  - destruct (Hshift ltac:(lia)) as [Hq He']. rewrite Hq, He'.
    assert (Hpn : 0 < 2 ^ n) by (apply Z.pow_pos_nonneg; lia).
    assert (Hsplit : 2 ^ (E - e) = 2 ^ n * 2 ^ (E - (e + n))).
    { rewrite <- pow2_split by lia. f_equal. lia. }
    split; [exact Hn |]. split; [apply Z.div_pos; lia |]. split.
    + apply Z.div_le_upper_bound; [exact Hpn |]. rewrite Hsplit in Hb. lia.
    + intros Hlt. apply Z.div_lt_upper_bound; [exact Hpn |]. rewrite Hsplit in Hlt. lia.
Qed.

Lemma binary_round_aux_upper :
  forall mx ex,
    0 <= mx -> ex <= E -> mx < Zpos K * 2 ^ (E - ex) ->
    fleb (binary_round_aux prec emax false mx ex loc_Exact) (S754_finite false K E) = true.
Proof.
  intros mx ex Hm He Hb. unfold binary_round_aux.
  destruct (shr_fexp_upper mx ex loc_Exact Hm He ltac:(lia)) as [He1 [Hq0 [_ Hq1]]].
  specialize (Hq1 Hb).
  destruct (shr_fexp prec emax mx ex loc_Exact) as [mrs' e']. cbn [fst snd] in *.
  pose proof (round_nearest_even_bounds (shr_m mrs') (loc_of_shr_record mrs')) as Hr.
  set (m2 := round_nearest_even (shr_m mrs') (loc_of_shr_record mrs')) in *.
  destruct (shr_fexp_upper m2 e' loc_Exact ltac:(lia) He1 ltac:(lia)) as [He2 [Hm3 [Hb3 _]]].
  destruct (shr_fexp prec emax m2 e' loc_Exact) as [mrs'' e'']. cbn [fst snd] in *.
  destruct (shr_m mrs'') as [| p | p]; [reflexivity | | lia].
  unfold emax, prec in *.
  destruct (Z.leb_spec e'' (128 - 24)) as [_ | Hover]; [| lia].
  unfold fleb, SFleb. cbv beta iota delta [SFcompare].
  destruct (Z.compare_spec e'' E) as [Heq | Hlt | Hgt]; [| reflexivity | lia].
  subst e''. rewrite Z.sub_diag in Hb3. rewrite Pos.compare_cont_spec. cbn [Pos.switch_Eq].
  destruct (Pos.compare_spec p K) as [Hc | Hc | Hc]; try reflexivity. lia.
Qed.

Lemma binary_round_upper :
  forall d ez,
    ez <= E -> Zpos d < Zpos K * 2 ^ (E - ez) ->
    fleb (binary_round prec emax false d ez) (S754_finite false K E) = true.
Proof.
  intros d ez He Hb. unfold binary_round.
  destruct (shl_align_value d ez (fexp prec emax (Zpos (digits2_pos d) + ez)))
    as [H1 [_ H2]].
  destruct (shl_align d ez _) as [mz ez']. cbn [fst snd] in *.
  apply binary_round_aux_upper; [lia | lia |].
  rewrite H2.
  assert (Hs : 2 ^ (E - ez') = 2 ^ (E - ez) * 2 ^ (ez - ez')).
  { rewrite <- pow2_split by lia. f_equal. lia. }
  rewrite Hs.
  assert (0 < 2 ^ (ez - ez')) by (apply Z.pow_pos_nonneg; lia).
  nia.
Qed.

Hypothesis K_normal : 2 ^ 23 <= Zpos K.

Lemma shr_fexp_lower_first :
  forall m e l,
    e <= E -> Zpos K * 2 ^ (E - e) <= m ->
    E <= snd (shr_fexp prec emax m e l)
    /\ 2 ^ 23 <= shr_m (fst (shr_fexp prec emax m e l))
    /\ (snd (shr_fexp prec emax m e l) = E ->
        Zpos K <= shr_m (fst (shr_fexp prec emax m e l))).
Proof.
  intros m e l He Hb.
  assert (Hp : 0 < 2 ^ (E - e)) by (apply Z.pow_pos_nonneg; lia).
  assert (Hm : 0 < m) by nia.
  assert (Hd : 23 + (E - e) < Zdigits2 m).
  { apply Zdigits2_lower; [lia |]. rewrite pow2_split by lia. nia. }
  assert (Hlow : 2 ^ (Zdigits2 m - 1) <= m).
  { destruct m as [| p | p]; try lia. apply digits2_pos_bounds. }
  destruct (shr_fexp_value m e l ltac:(lia)) as [Hsame Hshift].
  set (n := fexp prec emax (Zdigits2 m + e) - e) in *.
  assert (Hn : n = Zdigits2 m - 24) by (unfold n; rewrite fexp_value; lia).
  destruct (Z_le_gt_dec n 0) as [Hle | Hgt].
  - rewrite (Hsame Hle). cbn [fst snd]. rewrite shr_record_of_loc_m.
    assert (e = E) by lia. subst e. rewrite Z.sub_diag in Hb. repeat split; lia.
  - destruct (Hshift ltac:(lia)) as [Hq He']. rewrite Hq, He'.
    assert (Hpn : 0 < 2 ^ n) by (apply Z.pow_pos_nonneg; lia).
    split; [lia |]. split.
    + apply Z.div_le_lower_bound; [exact Hpn |].
      rewrite <- pow2_split by lia. replace (n + 23) with (Zdigits2 m - 1) by lia.
      exact Hlow.
    + intros Heq. apply Z.div_le_lower_bound; [exact Hpn |].
      replace n with (E - e) by lia. lia.
Qed.

Lemma shr_fexp_lower_second :
  forall m e l,
    2 ^ 23 <= m -> E <= e -> (e = E -> Zpos K <= m) ->
    e <= snd (shr_fexp prec emax m e l)
    /\ 0 < shr_m (fst (shr_fexp prec emax m e l))
    /\ (snd (shr_fexp prec emax m e l) = E ->
        Zpos K <= shr_m (fst (shr_fexp prec emax m e l))).
Proof.
  intros m e l Hm He Hb.
  assert (Hd : 23 < Zdigits2 m) by (apply Zdigits2_lower; lia).
  assert (Hlow : 2 ^ (Zdigits2 m - 1) <= m).
  { destruct m as [| p | p]; try lia. apply digits2_pos_bounds. }
  destruct (shr_fexp_value m e l ltac:(lia)) as [Hsame Hshift].
  set (n := fexp prec emax (Zdigits2 m + e) - e) in *.
  assert (Hn : n = Zdigits2 m - 24) by (unfold n; rewrite fexp_value; lia).
  destruct (Z_le_gt_dec n 0) as [Hle | Hgt].
  - rewrite (Hsame Hle). cbn [fst snd]. rewrite shr_record_of_loc_m.
    repeat split; auto; lia.
  - destruct (Hshift ltac:(lia)) as [Hq He']. rewrite Hq, He'.
    assert (Hpn : 0 < 2 ^ n) by (apply Z.pow_pos_nonneg; lia).
    split; [lia |]. split; [| lia].
    assert (1 <= m / 2 ^ n); [| lia].
    apply Z.div_le_lower_bound; [exact Hpn |].
    assert (2 ^ n <= 2 ^ (Zdigits2 m - 1)) by (apply Z.pow_le_mono_r; lia). lia.
Qed.

Lemma binary_round_aux_lower :
  forall mx ex,
    ex <= E -> Zpos K * 2 ^ (E - ex) <= mx ->
    fleb (S754_finite false K E) (binary_round_aux prec emax false mx ex loc_Exact) = true.
Proof.
  intros mx ex He Hb. unfold binary_round_aux.
  destruct (shr_fexp_lower_first mx ex loc_Exact He Hb) as [He1 [Hq Hk1]].
  destruct (shr_fexp prec emax mx ex loc_Exact) as [mrs' e']. cbn [fst snd] in *.
  pose proof (round_nearest_even_bounds (shr_m mrs') (loc_of_shr_record mrs')) as Hr.
  set (m2 := round_nearest_even (shr_m mrs') (loc_of_shr_record mrs')) in *.
  destruct (shr_fexp_lower_second m2 e' loc_Exact ltac:(lia) He1 ltac:(intros; lia))
    as [He2 [Hm3 Hk3]].
  destruct (shr_fexp prec emax m2 e' loc_Exact) as [mrs'' e'']. cbn [fst snd] in *.
  destruct (shr_m mrs'') as [| p | p]; [lia | | lia].
  destruct (e'' <=? emax - prec); [| reflexivity].
  unfold fleb, SFleb. cbv beta iota delta [SFcompare].
  destruct (Z.compare_spec E e'') as [Heq | Hlt | Hgt]; [| reflexivity | lia].
  rewrite Pos.compare_cont_spec. cbn [Pos.switch_Eq].
  specialize (Hk3 (eq_sym Heq)).
  destruct (Pos.compare_spec K p) as [Hc | Hc | Hc]; try reflexivity. lia.
Qed.

Lemma binary_round_lower :
  forall d ez,
    ez <= E -> Zpos K * 2 ^ (E - ez) <= Zpos d ->
    fleb (S754_finite false K E) (binary_round prec emax false d ez) = true.
Proof.
  intros d ez He Hb. unfold binary_round.
  destruct (shl_align_value d ez (fexp prec emax (Zpos (digits2_pos d) + ez)))
    as [H1 [_ H2]].
  destruct (shl_align d ez _) as [mz ez']. cbn [fst snd] in *.
  apply binary_round_aux_lower; [lia |].
  rewrite H2.
  assert (Hs : 2 ^ (E - ez') = 2 ^ (E - ez) * 2 ^ (ez - ez')).
  { rewrite <- pow2_split by lia. f_equal. lia. }
  rewrite Hs.
  assert (0 < 2 ^ (ez - ez')) by (apply Z.pow_pos_nonneg; lia).
  nia.
Qed.

Lemma fleb_refl_bound : fleb (S754_finite false K E) (S754_finite false K E) = true.
Proof.
  unfold fleb, SFleb. cbv beta iota delta [SFcompare].
  rewrite Z.compare_refl, Pos.compare_cont_spec, Pos.compare_refl. reflexivity.
Qed.

Lemma negative_below_bound :
  forall f, signed true f -> fleb f (S754_finite false K E) = true.
Proof.
  intros f H. destruct f as [s | s | | s m e]; cbn in H; try contradiction; subst s;
    reflexivity.
Qed.

(** Subtracting a non-negative float from the bound does not give more
    than the bound. *)
Lemma fsub_nonneg_below :
  forall b, nonneg b -> fleb (fsub (S754_finite false K E) b) (S754_finite false K E) = true.
Proof.
  intros b Hb. destruct b as [s | s | | s mb eb]; cbn in Hb; try contradiction.
  - apply fleb_refl_bound.
  - destruct s; [contradiction | reflexivity].
  - destruct s; [contradiction |].
    unfold fsub. cbv beta iota zeta delta [SFsub cond_Zopp].
    set (ez := Z.min E eb).
    destruct (shl_align_value K E ez) as [_ [Ha1 Ha2]].
    destruct (shl_align_value mb eb ez) as [_ _].
    rewrite (Ha1 ltac:(lia)) in Ha2.
    set (a := fst (shl_align K E ez)) in *. set (c := fst (shl_align mb eb ez)) in *.
    unfold binary_normalize.
    destruct (Zpos a - Zpos c) as [| d | d] eqn:Hd.
    + reflexivity.
    + apply binary_round_upper; lia.
    + apply negative_below_bound, binary_round_signed.
Qed.

(** Adding a non-negative float to the bound does not give less than the
    bound. *)
Lemma fadd_nonneg_above :
  forall b, nonneg b -> fleb (S754_finite false K E) (fadd (S754_finite false K E) b) = true.
Proof.
  intros b Hb. destruct b as [s | s | | s mb eb]; cbn in Hb; try contradiction.
  - apply fleb_refl_bound.
  - destruct s; [contradiction | reflexivity].
  - destruct s; [contradiction |].
    unfold fadd. cbv beta iota zeta delta [SFadd cond_Zopp].
    set (ez := Z.min E eb).
    destruct (shl_align_value K E ez) as [_ [Ha1 Ha2]].
    rewrite (Ha1 ltac:(lia)) in Ha2.
    set (a := fst (shl_align K E ez)) in *. set (c := fst (shl_align mb eb ez)) in *.
    unfold binary_normalize. cbn [Z.add].
    apply binary_round_lower; lia.
Qed.

End Bound.

(** The zoom step of a frame whose elapsed time is not negative. *)
Lemma zoom_step_nonneg :
  forall deltaTime, fleb f0 deltaTime = true -> nonneg (fmul zoomSpeed deltaTime).
Proof.
  intros dt H. destruct dt as [s | s | | s m e]; try discriminate.
  - exact I.
  - destruct s; [discriminate | exact I].
  - destruct s; [discriminate |].
    unfold fmul, zoomSpeed. cbv beta iota delta [SFmul xorb].
    pose proof (binary_round_aux_signed false (Zpos (10485760 * m)) (-20 + e) loc_Exact
                  ltac:(lia)) as Hs.
    destruct (binary_round_aux prec emax false (Zpos (10485760 * m)) (-20 + e) loc_Exact)
      as [s' | s' | | s' m' e']; cbn in Hs |- *; try contradiction; subst s'; exact I.
Qed.

Lemma zoom_in_at_min :
  forall keys deltaTime,
    key_Q keys = true -> key_E keys = false -> fleb f0 deltaTime = true ->
    fleb (zoom keys deltaTime minDistance) minDistance = true.
Proof.
  intros keys dt HQ HE Hdt. unfold zoom. rewrite HQ, HE.
  apply (fsub_nonneg_below 12582912 (-23));
    first [apply zoom_step_nonneg; exact Hdt | reflexivity | lia | vm_compute; discriminate].
Qed.

Lemma zoom_out_at_max :
  forall keys deltaTime,
    key_Q keys = false -> key_E keys = true -> fleb f0 deltaTime = true ->
    fleb maxDistance (zoom keys deltaTime maxDistance) = true.
Proof.
  intros keys dt HQ HE Hdt. unfold zoom. rewrite HQ, HE.
  apply (fadd_nonneg_above 10485760 (-18));
    first [apply zoom_step_nonneg; exact Hdt | reflexivity | lia | vm_compute; discriminate].
Qed.

(* ================================================================== *)
(** * The camera on concrete frames *)

(** Holding the zoom-in key at sixty frames a second: the distance
    reaches [minDistance] within thirty frames and stays there. *)
Example zoom_in_saturates :
  cameraDistance (run_frames (repeat (zoom_in_key, a_frame_time) 30) initial_camera)
  = minDistance
  /\ cameraDistance (run_frames (repeat (zoom_in_key, a_frame_time) 90) initial_camera)
     = minDistance.
Proof. split; vm_compute; reflexivity. Qed.

(** Why the zoom step has to be finite: with both zoom keys held and an
    elapsed time so large that [zoomSpeed * deltaTime] overflows, the
    distance becomes a NaN, and the clamp lets it through. *)
Example overflowing_step_gives_nan :
  is_finite (fmul zoomSpeed (float_of_Z (2 ^ 126))) = false
  /\ cameraDistance (update_camera all_keys (float_of_Z (2 ^ 126)) initial_camera)
     = S754_nan.
Proof. split; vm_compute; reflexivity. Qed.

(* ================================================================== *)
(** * The camera: the claims *)

(** Frames that drive the distance to or below [minDistance] leave it
    there, and likewise at [maxDistance]. *)
Lemma held_at_min :
  forall frames c,
    cameraDistance c = minDistance ->
    (forall keys deltaTime,
        In (keys, deltaTime) frames ->
        fleb (zoom keys deltaTime minDistance) minDistance = true) ->
    cameraDistance (run_frames frames c) = minDistance.
Proof.
  induction frames as [| [keys dt] frames IH]; intros c Hc Hall; [exact Hc |].
  cbn [run_frames]. apply IH.
  - cbn [update_camera cameraDistance]. rewrite Hc.
    apply clamp_at_or_below. apply Hall. left. reflexivity.
  - intros k d Hin. apply Hall. right. exact Hin.
Qed.

Lemma held_at_max :
  forall frames c,
    cameraDistance c = maxDistance ->
    (forall keys deltaTime,
        In (keys, deltaTime) frames ->
        fleb maxDistance (zoom keys deltaTime maxDistance) = true) ->
    cameraDistance (run_frames frames c) = maxDistance.
Proof.
  induction frames as [| [keys dt] frames IH]; intros c Hc Hall; [exact Hc |].
  cbn [run_frames]. apply IH.
  - cbn [update_camera cameraDistance]. rewrite Hc.
    apply clamp_at_or_above. apply Hall. left. reflexivity.
  - intros k d Hin. apply Hall. right. exact Hin.
Qed.

Lemma in_range_not_nan : forall d, in_range d = true -> is_nan d = false.
Proof.
  intros d H. destruct (in_range_positive_finite d H) as [m [e ->]]. reflexivity.
Qed.

(** C8: after a frame the distance lies in [[minDistance, maxDistance]],
    provided the distance before it is a number and the zoom step
    [zoomSpeed * deltaTime] is finite; so it does after every frame of a
    run that starts within the interval.  A distance driven below
    [minDistance] becomes [minDistance], one driven above [maxDistance]
    becomes [maxDistance], one inside the interval is kept.  Once at
    [minDistance], any number of frames with the zoom-in key held, the
    zoom-out key released and an elapsed time that is not negative leave
    the distance at [minDistance]; likewise for zoom-out at
    [maxDistance]. *)
Theorem camera_distance_is_clamped :
  (forall keys deltaTime c,
      is_nan (cameraDistance c) = false ->
      is_finite (fmul zoomSpeed deltaTime) = true ->
      let target := zoom keys deltaTime (cameraDistance c) in
      let d' := cameraDistance (update_camera keys deltaTime c) in
      in_range d' = true
      /\ (fltb target minDistance = true -> d' = minDistance)
      /\ (fltb maxDistance target = true -> d' = maxDistance)
      /\ (in_range target = true -> d' = target))
  /\ (forall frames c,
         in_range (cameraDistance c) = true ->
         (forall keys deltaTime,
             In (keys, deltaTime) frames ->
             is_finite (fmul zoomSpeed deltaTime) = true) ->
         in_range (cameraDistance (run_frames frames c)) = true)
  /\ (forall frames c,
         cameraDistance c = minDistance ->
         (forall keys deltaTime,
             In (keys, deltaTime) frames ->
             key_Q keys = true /\ key_E keys = false /\ fleb f0 deltaTime = true) ->
         cameraDistance (run_frames frames c) = minDistance)
  /\ (forall frames c,
         cameraDistance c = maxDistance ->
         (forall keys deltaTime,
             In (keys, deltaTime) frames ->
             key_Q keys = false /\ key_E keys = true /\ fleb f0 deltaTime = true) ->
         cameraDistance (run_frames frames c) = maxDistance).
Proof.
  split; [| split; [| split]].
  - intros keys dt c Hd Hstep target d'. subst d'. cbn [update_camera cameraDistance].
    fold target.
    assert (Hnan : is_nan target = false) by (apply zoom_not_nan; assumption).
    split; [apply clamp_in_range; exact Hnan |].
    split; [apply clamp_below |].
    split; [apply clamp_above |].
    intros Hin. apply clamp_within;
      [apply in_range_not_below | apply in_range_not_above]; exact Hin.
  - induction frames as [| [keys dt] frames IH]; intros c Hc Hall; [exact Hc |].
    cbn [run_frames]. apply IH.
    + cbn [update_camera cameraDistance]. apply clamp_in_range.
      apply (zoom_not_nan keys dt (cameraDistance c)).
      * apply in_range_not_nan. exact Hc.
      * apply (Hall keys dt). left. reflexivity.
    + intros k d Hin. apply (Hall k d). right. exact Hin.
  - intros frames c Hc Hall. apply held_at_min; [exact Hc |].
    intros keys dt Hin. destruct (Hall keys dt Hin) as [HQ [HE Hdt]].
    apply zoom_in_at_min; assumption.
  - intros frames c Hc Hall. apply held_at_max; [exact Hc |].
    intros keys dt Hin. destruct (Hall keys dt Hin) as [HQ [HE Hdt]].
    apply zoom_out_at_max; assumption.
Qed.

Lemma camera_distance_is_clamped_witness :
  in_range (cameraDistance (update_camera zoom_in_key a_frame_time initial_camera)) = true
  /\ in_range
       (cameraDistance
          (run_frames [(zoom_in_key, a_frame_time); (all_keys, a_frame_time)]
                      initial_camera)) = true
  /\ cameraDistance
       (run_frames [(zoom_in_key, a_frame_time); (zoom_in_key, a_frame_time)]
                   (mkCamera f0 f0 minDistance))
     = minDistance
  /\ cameraDistance
       (run_frames [(zoom_out_key, a_frame_time); (zoom_out_key, a_frame_time)]
                   (mkCamera f0 f0 maxDistance))
     = maxDistance.
Proof.
  destruct camera_distance_is_clamped as [H1 [H0 [H2 H3]]].
  split; [| split; [| split]].
  - apply (H1 zoom_in_key a_frame_time initial_camera); reflexivity.
  - apply (H0 [(zoom_in_key, a_frame_time); (all_keys, a_frame_time)] initial_camera);
      [reflexivity |].
    intros keys dt [H | [H | []]]; injection H as <- <-; reflexivity.
  - apply (H2 [(zoom_in_key, a_frame_time); (zoom_in_key, a_frame_time)]
              (mkCamera f0 f0 minDistance)); [reflexivity |].
    intros keys dt [H | [H | []]]; injection H as <- <-; repeat split.
  - apply (H3 [(zoom_out_key, a_frame_time); (zoom_out_key, a_frame_time)]
              (mkCamera f0 f0 maxDistance)); [reflexivity |].
    intros keys dt [H | [H | []]]; injection H as <- <-; repeat split.
Defined.

(** C9: a frame whose elapsed time is zero, on a camera whose distance
    is within [[minDistance, maxDistance]], changes nothing whatever the
    keys: the distance is the same float and each angle is the same
    number.  With [deltaTime = +0.0] and no angle being the negative
    zero, the camera is the same record. *)
Theorem zero_delta_changes_nothing :
  forall keys deltaTime c,
    is_zero deltaTime = true ->
    in_range (cameraDistance c) = true ->
    cameraDistance (update_camera keys deltaTime c) = cameraDistance c
    /\ same_value (angleY (update_camera keys deltaTime c)) (angleY c)
    /\ same_value (angleZ (update_camera keys deltaTime c)) (angleZ c)
    /\ (deltaTime = f0 ->
        negative_zero (angleY c) = false -> negative_zero (angleZ c) = false ->
        update_camera keys deltaTime c = c).
Proof.
  intros keys dt c Hdt Hd.
  assert (Hdist : cameraDistance (update_camera keys dt c) = cameraDistance c).
  { cbn [update_camera cameraDistance]. rewrite zoom_zero by assumption.
    apply clamp_within; [apply in_range_not_below | apply in_range_not_above]; exact Hd. }
  split; [exact Hdist |].
  split; [apply rotate_zero_same; exact Hdt |].
  split; [apply rotate_zero_same; exact Hdt |].
  intros -> HY HZ. destruct c as [aY aZ d].
  unfold update_camera in *. cbn [cameraDistance angleY angleZ] in *.
  rewrite Hdist, !rotate_plus_zero by assumption. reflexivity.
Qed.

Lemma zero_delta_changes_nothing_witness :
  cameraDistance (update_camera all_keys f0 initial_camera) = cameraDistance initial_camera
  /\ same_value (angleY (update_camera all_keys f0 initial_camera)) (angleY initial_camera)
  /\ same_value (angleZ (update_camera all_keys f0 initial_camera)) (angleZ initial_camera)
  /\ (f0 = f0 ->
      negative_zero (angleY initial_camera) = false ->
      negative_zero (angleZ initial_camera) = false ->
      update_camera all_keys f0 initial_camera = initial_camera).
Proof.
  apply (zero_delta_changes_nothing all_keys f0 initial_camera); reflexivity.
Defined.

(* ================================================================== *)
(** * Lines that are not records, and the order of the lines *)


Section LoaderLines.

Variable num_get : string -> float * bool * string.
Variable vec3_default : vec3.

Lemma do_lines_recognised :
  forall lines st,
    do_lines num_get vec3_default (filter recognised lines) st
    = do_lines num_get vec3_default lines st.
Proof.
  induction lines as [| line lines IH]; intros st; [reflexivity |].
  cbn [filter]. destruct (recognised line) eqn:R.
  - cbn [do_lines]. destruct (do_line num_get vec3_default line st); cbn [bind];
      [apply IH | | |]; reflexivity.
  - unfold recognised in R.
    apply orb_false_elim in R. destruct R as [R Hf].
    apply orb_false_elim in R. destruct R as [Hv Hvn].
    cbn [do_lines]. rewrite do_line_other by assumption. cbn [bind]. apply IH.
Qed.

(** A line that is not a [v] line neither reads nor writes the staged
    positions. *)
Lemma other_line_ignores_positions :
  forall line m tv tv' tn,
    is_v_line line = false ->
    do_line num_get vec3_default line (mkloader m tv tn)
    = with_positions tv (do_line num_get vec3_default line (mkloader m tv' tn)).
Proof.
  intros line m tv tv' tn Hv.
  destruct (is_vn_line line) eqn:Hvn.
  - rewrite !do_line_vn by exact Hvn. reflexivity.
  - destruct (is_f_line line) eqn:Hf.
    + rewrite !do_line_f by exact Hf. unfold face_line. cbn [tempNormals mesh tempVertices].
      destruct (read_corners (tokens (rest_after 2 line)) [] []) as [[fv fn] | | |];
        cbn [bind with_positions]; try reflexivity.
      destruct (triangulate tn fv fn m); reflexivity.
    + rewrite !do_line_other by assumption. reflexivity.
Qed.

Lemma with_positions_twice :
  forall tv tv' r, with_positions tv (with_positions tv' r) = with_positions tv r.
Proof. intros tv tv' r. destruct r; reflexivity. Qed.

Lemma other_lines_ignore_positions :
  forall lines m tv tv' tn,
    forallb not_v_line lines = true ->
    do_lines num_get vec3_default lines (mkloader m tv tn)
    = with_positions tv (do_lines num_get vec3_default lines (mkloader m tv' tn)).
Proof.
  induction lines as [| line lines IH]; intros m tv tv' tn Hall; [reflexivity |].
  cbn [forallb] in Hall. apply andb_prop in Hall. destruct Hall as [Hl Hall].
  unfold not_v_line in Hl. apply negb_true_iff in Hl.
  cbn [do_lines]. rewrite (other_line_ignores_positions line m tv tv' tn Hl).
  destruct (do_line num_get vec3_default line (mkloader m tv' tn)) as [[m1 tv1 tn1] | | |];
    cbn [with_positions bind mesh tempNormals]; try reflexivity.
  apply IH. exact Hall.
Qed.

Lemma forallb_filter_id :
  forall (A : Type) (f : A -> bool) (l : list A), forallb f (filter f l) = true.
Proof.
  intros A f. induction l as [| a l IH]; [reflexivity |].
  cbn [filter]. destruct (f a) eqn:E; [cbn [forallb]; rewrite E, IH; reflexivity | exact IH].
Qed.

(** A run of the loop is the run of its lines other than [v] lines,
    with the [v] lines staged beside it. *)
Lemma do_lines_split :
  forall lines m tv tn,
    do_lines num_get vec3_default lines (mkloader m tv tn)
    = with_positions
        (tv ++ map (position_of num_get vec3_default) (filter is_v_line lines))
        (do_lines num_get vec3_default (filter not_v_line lines) (mkloader m [] tn)).
Proof.
  induction lines as [| line lines IH]; intros m tv tn.
  - cbn. rewrite app_nil_r. reflexivity.
  - cbn [filter]. unfold not_v_line at 1. destruct (is_v_line line) eqn:Hv; cbn [negb].
    + cbn [do_lines]. rewrite do_line_v by exact Hv. cbn [bind mesh tempVertices tempNormals].
      rewrite IH. cbn [map]. rewrite <- app_assoc. reflexivity.
    + cbn [do_lines map].
      rewrite (other_line_ignores_positions line m tv [] tn Hv).
      destruct (do_line num_get vec3_default line (mkloader m [] tn)) as [[m1 tv1 tn1] | | |];
        cbn [with_positions bind mesh tempNormals]; try reflexivity.
      rewrite IH.
      rewrite (other_lines_ignore_positions (filter not_v_line lines) m1 tv1 [] tn1)
        by apply forallb_filter_id.
      rewrite with_positions_twice. reflexivity.
Qed.

Lemma load_lines_split :
  forall lines,
    load_lines num_get vec3_default lines
    = (st <- with_positions
               (map (position_of num_get vec3_default) (filter is_v_line lines))
               (do_lines num_get vec3_default (filter not_v_line lines) initial_loader) ;;
       Ok (copy_vertices (tempVertices st) (mesh st))).
Proof.
  intros lines. unfold load_lines, initial_loader. rewrite do_lines_split. reflexivity.
Qed.

End LoaderLines.

(** X1: lines that are neither [v], [vn] nor [f] records (comments,
    [vt], [g], [usemtl], blank lines) have no effect at all: with or
    without them the loader ends the same way, with the same mesh. *)
Theorem unrecognised_lines_are_ignored :
  forall num_get vec3_default lines,
    load_lines num_get vec3_default (filter recognised lines)
    = load_lines num_get vec3_default lines.
Proof.
  intros num_get vec3_default lines. unfold load_lines.
  rewrite do_lines_recognised. reflexivity.
Qed.

(** X2: positions are only copied into the mesh after the last line,
    and no face looks at them: two files with the same [v] lines in the
    same order and the same other lines in the same order load alike,
    however the two are interleaved.  A face may name positions that come
    later in the file, or none that exists. *)
Theorem interleaving_of_positions_is_free :
  forall num_get vec3_default lines lines',
    filter is_v_line lines = filter is_v_line lines' ->
    filter not_v_line lines = filter not_v_line lines' ->
    load_lines num_get vec3_default lines = load_lines num_get vec3_default lines'.
Proof.
  intros num_get vec3_default lines lines' Hv Ho.
  rewrite !load_lines_split, Hv, Ho. reflexivity.
Qed.

Lemma interleaving_of_positions_is_free_witness :
  load_lines integer_get vec3_zero
    ["vn 0 0 1"; "f 1//1 2//1 3//1"; "v 0 0 0"; "v 1 0 0"; "v 0 1 0"]%string
  = load_lines integer_get vec3_zero
      ["v 0 0 0"; "v 1 0 0"; "v 0 1 0"; "vn 0 0 1"; "f 1//1 2//1 3//1"]%string.
Proof.
  apply (interleaving_of_positions_is_free integer_get vec3_zero); reflexivity.
Defined.

Section LoaderCounts.

Variable num_get : string -> float * bool * string.
Variable vec3_default : vec3.

(** Without face lines every round returns and the mesh stays as it
    is. *)
Lemma do_lines_without_faces :
  forall lines st,
    forallb (fun l => negb (is_f_line l)) lines = true ->
    do_lines num_get vec3_default lines st
    = Ok (mkloader (mesh st)
            (tempVertices st
             ++ map (position_of num_get vec3_default) (filter is_v_line lines))
            (tempNormals st
             ++ map (staged_normal_of num_get vec3_default) (filter is_vn_line lines))).
Proof.
  induction lines as [| line lines IH]; intros st Hall.
  - cbn. rewrite !app_nil_r. destruct st; reflexivity.
  - cbn [forallb] in Hall. apply andb_prop in Hall. destruct Hall as [Hl Hall].
    apply negb_true_iff in Hl. cbn [do_lines filter].
    destruct (is_v_line line) eqn:Hv.
    + rewrite do_line_v by exact Hv. cbn [bind].
      destruct (is_vn_line line) eqn:Hvn; [apply vn_line_not_v in Hvn; congruence |].
      rewrite IH by exact Hall. cbn [mesh tempVertices tempNormals map].
      rewrite <- app_assoc. reflexivity.
    + destruct (is_vn_line line) eqn:Hvn.
      * rewrite do_line_vn by exact Hvn. cbn [bind].
        rewrite IH by exact Hall. cbn [mesh tempVertices tempNormals map].
        rewrite <- app_assoc. reflexivity.
      * rewrite do_line_other by assumption. cbn [bind]. apply IH. exact Hall.
Qed.

Lemma first_three_valid_dec :
  forall tn fn, first_three_valid tn fn \/ ~ first_three_valid tn fn.
Proof.
  intros tn fn. unfold first_three_valid, valid_normal.
  destruct (Z_le_dec 0 (nth 0 fn 0)), (Z_lt_dec (nth 0 fn 0) (vsize tn)),
           (Z_le_dec 0 (nth 1 fn 0)), (Z_lt_dec (nth 1 fn 0) (vsize tn)),
           (Z_le_dec 0 (nth 2 fn 0)), (Z_lt_dec (nth 2 fn 0) (vsize tn));
    try (left; intros j Hj; destruct j as [| [| [| j]]]; [lia | lia | lia | lia]);
    right; intros H;
    pose proof (H 0%nat ltac:(lia)); pose proof (H 1%nat ltac:(lia));
    pose proof (H 2%nat ltac:(lia)); lia.
Qed.

Lemma list_sum_pieces :
  forall sep s, (list_sum (map String.length (split_on sep s)) <= String.length s)%nat.
Proof.
  intros sep s. unfold list_sum. induction s as [| c s IH]; [cbn; lia |].
  cbn [split_on String.length]. destruct (sep c).
  - cbn [map list_sum String.length fold_right]. lia.
  - destruct (split_on sep s) as [| piece more];
      cbn [map list_sum String.length fold_right] in *; lia.
Qed.

Lemma nonempty_count :
  forall l, (List.length (filter nonempty l) <= list_sum (map String.length l))%nat.
Proof.
  intros l. unfold list_sum. induction l as [| s l IH]; [cbn; lia |].
  cbn [filter map fold_right].
  destruct s as [| c s]; cbn [nonempty List.length String.length]; lia.
Qed.

(** There are no more tokens than characters. *)
Lemma tokens_count : forall s, (List.length (tokens s) <= String.length s)%nat.
Proof.
  intros s. unfold tokens.
  pose proof (nonempty_count (split_on isspace s)).
  pose proof (list_sum_pieces isspace s). lia.
Qed.

(** What [substr] hands on is shorter than [npos]: the corner vectors of
    a face line always have a size that fits [size_t]. *)
Lemma rest_after_tokens_fit :
  forall k line, Z.of_nat (List.length (tokens (rest_after k line))) < size_t_modulus.
Proof.
  intros k line.
  pose proof (tokens_count (rest_after k line)) as H1.
  assert (H2 : Z.of_nat (String.length (rest_after k line)) <= npos).
  { unfold rest_after.
    pose proof (substring_length_le line (Z.to_nat k)
                  (Z.to_nat (Z.min npos (size line - k)))) as H.
    assert (0 <= npos) by (unfold npos; rewrite size_t_modulus_val; lia). lia. }
  unfold npos in H2. lia.
Qed.

Lemma fan_triangles_length :
  forall (A : Type) (d : A) cs,
    List.length (flat_map triple (fan_triangles d cs)) = (3 * (List.length cs - 2))%nat.
Proof.
  intros A d cs. unfold fan_triangles.
  assert (H : forall l : list nat,
             List.length
               (flat_map triple
                  (map (fun i => (nth 0 cs d, nth i cs d, nth (S i) cs d)) l))
             = (3 * List.length l)%nat).
  { induction l as [| i l IH]; [reflexivity |].
    cbn [map flat_map triple]. rewrite length_app, IH. cbn [List.length]. lia. }
  rewrite H, length_seq. reflexivity.
Qed.

(** The face branch, when it returns, has added exactly [n - 2]
    triangles for its [n] corners. *)
Lemma face_line_count :
  forall line st st',
    face_line (rest_after 2 line) st = Ok st' ->
    List.length (indices (mesh st'))
    = (List.length (indices (mesh st))
       + 3 * triangles_of (List.length (tokens (rest_after 2 line))))%nat.
Proof.
  intros line st st' H. unfold face_line in H.
  destruct (read_corners (tokens (rest_after 2 line)) [] []) as [[fv fn] | | |] eqn:Hc;
    cbn [bind] in H; try discriminate.
  destruct (read_corners_length _ _ _ _ _ Hc) as [Hfv Hfn]. cbn [List.length] in Hfv, Hfn.
  pose proof (rest_after_tokens_fit 2 line) as Hfit.
  destruct (Nat.le_gt_cases 3 (List.length fv)) as [H3 | H3].
  - destruct (first_three_valid_dec (tempNormals st) fn) as [Hval | Hbad].
    + rewrite triangulate_polygon in H by (unfold vsize; auto; lia).
      cbn [bind] in H. injection H as <-. cbn [mesh indices].
      rewrite length_app, fan_triangles_length. unfold triangles_of. lia.
    + rewrite triangulate_bad_normal in H by (unfold vsize; auto; lia). discriminate.
  - destruct fv as [| c fv]; [discriminate |].
    rewrite triangulate_short in H by (cbn [List.length] in *; lia).
    cbn [bind] in H. injection H as <-. cbn [mesh]. unfold triangles_of.
    cbn [List.length] in *. lia.
Qed.

Lemma do_lines_count :
  forall lines st st',
    do_lines num_get vec3_default lines st = Ok st' ->
    List.length (indices (mesh st'))
    = (List.length (indices (mesh st))
       + 3 * list_sum (map triangles_of (face_corner_counts lines)))%nat.
Proof.
  induction lines as [| line lines IH]; intros st st' H.
  - cbn in H. injection H as <-. cbn. lia.
  - cbn [do_lines] in H.
    destruct (do_line num_get vec3_default line st) as [st1 | | |] eqn:E;
      cbn [bind] in H; try discriminate.
    rewrite (IH _ _ H). unfold face_corner_counts. cbn [filter].
    destruct (is_f_line line) eqn:Hf.
    + rewrite do_line_f in E by exact Hf. rewrite (face_line_count _ _ _ E).
      cbn [map]. unfold list_sum. cbn [fold_right]. lia.
    + assert (Hm : mesh st1 = mesh st).
      { destruct (is_v_line line) eqn:Hv;
          [rewrite do_line_v in E by exact Hv; injection E as <-; reflexivity |].
        destruct (is_vn_line line) eqn:Hvn;
          [rewrite do_line_vn in E by exact Hvn; injection E as <-; reflexivity |].
        rewrite do_line_other in E by assumption. injection E as <-. reflexivity. }
      rewrite Hm. reflexivity.
Qed.

Lemma copy_vertices_indices :
  forall vs m, indices (copy_vertices vs m) = indices m.
Proof. intros vs m. rewrite copy_vertices_spec. reflexivity. Qed.

End LoaderCounts.

(** X3: a file without face lines always loads: the mesh holds the
    positions of the [v] lines and no normals and no indices, whatever
    the [vn] lines are. *)
Theorem no_faces_never_fails :
  forall num_get vec3_default lines,
    forallb (fun l => negb (is_f_line l)) lines = true ->
    load_lines num_get vec3_default lines
    = Ok (mkMesh
            (flat_map flatten
               (map (position_of num_get vec3_default) (filter is_v_line lines)))
            [] [] []).
Proof.
  intros num_get vec3_default lines H. unfold load_lines.
  rewrite do_lines_without_faces by exact H. cbn [bind].
  rewrite copy_vertices_spec. reflexivity.
Qed.

Lemma no_faces_never_fails_witness :
  load_lines integer_get vec3_zero ["# teapot"; "v 1 0 0"; "vn 0 0 1"; "vt 0 0"]%string
  = Ok (mkMesh
          (flat_map flatten
             (map (position_of integer_get vec3_zero)
                  (filter is_v_line ["# teapot"; "v 1 0 0"; "vn 0 0 1"; "vt 0 0"]%string)))
          [] [] []).
Proof.
  apply (no_faces_never_fails integer_get vec3_zero). reflexivity.
Defined.

(** X4: a loaded mesh has three indices for each triangle of each face
    line, a face line of [n] corner tokens counting [n - 2] triangles
    (none for one or two tokens). *)
Theorem triangle_count :
  forall num_get vec3_default lines m,
    load_lines num_get vec3_default lines = Ok m ->
    List.length (indices m)
    = (3 * list_sum (map triangles_of (face_corner_counts lines)))%nat.
Proof.
  intros num_get vec3_default lines m H. unfold load_lines in H.
  destruct (do_lines num_get vec3_default lines initial_loader) as [st | | |] eqn:E;
    cbn [bind] in H; try discriminate.
  injection H as <-. rewrite copy_vertices_indices.
  rewrite (do_lines_count _ _ _ _ _ E). reflexivity.
Qed.

Lemma triangle_count_witness :
  List.length (indices triangle_mesh)
  = (3 * list_sum
           (map triangles_of
              (face_corner_counts
                 ["v 0 0 0"; "v 1 0 0"; "v 0 1 0"; "vn 0 0 1"; "f 1//1 2//1 3//1"]%string)))%nat.
Proof.
  apply (triangle_count integer_get vec3_zero
           ["v 0 0 0"; "v 1 0 0"; "v 0 1 0"; "vn 0 0 1"; "f 1//1 2//1 3//1"]%string
           triangle_mesh).
  vm_compute. reflexivity.
Defined.

(* ================================================================== *)
(** * Line ends and white space *)

Lemma split_on_not_nil : forall sep s, split_on sep s <> [].
Proof.
  intros sep s. destruct s as [| c s]; cbn [split_on]; [discriminate |].
  destruct (sep c); [discriminate |].
  destruct (split_on sep s); discriminate.
Qed.

Lemma repeat_snoc :
  forall (A : Type) (a : A) n, (repeat a n ++ [a])%list = a :: repeat a n.
Proof.
  intros A a. induction n as [| n IH]; [reflexivity |].
  cbn [repeat app]. rewrite IH. reflexivity.
Qed.

(** Separators at the end of a text only add empty pieces. *)
Lemma split_on_trailing :
  forall sep s w,
    all_sep sep w = true ->
    split_on sep (s ++ w)
    = (split_on sep s ++ repeat EmptyString (String.length w))%list.
Proof.
  intros sep. induction s as [| c s IH]; intros w Hw.
  - cbn [String.append split_on app]. induction w as [| d w IHw]; [reflexivity |].
    cbn [all_sep] in Hw. apply andb_prop in Hw. destruct Hw as [Hd Hw].
    cbn [split_on String.length repeat]. rewrite Hd, (IHw Hw). reflexivity.
  - cbn [String.append split_on]. rewrite (IH w Hw). destruct (sep c); [reflexivity |].
    destruct (split_on sep s) as [| p r] eqn:E; [| reflexivity].
    exfalso. exact (split_on_not_nil sep s E).
Qed.

Lemma filter_nonempty_repeat :
  forall n, filter nonempty (repeat EmptyString n) = [].
Proof. induction n as [| n IH]; [reflexivity | exact IH]. Qed.

Lemma all_space_all_sep : forall w, all_space w = all_sep isspace w.
Proof. induction w as [| c w IH]; [reflexivity |]. cbn. rewrite IH. reflexivity. Qed.

Lemma tokens_trailing_space :
  forall s w, all_space w = true -> tokens (s ++ w) = tokens s.
Proof.
  intros s w Hw. unfold tokens. rewrite all_space_all_sep in Hw.
  rewrite split_on_trailing by exact Hw.
  rewrite filter_app, filter_nonempty_repeat, app_nil_r. reflexivity.
Qed.

Lemma tokens_leading_space :
  forall w s, all_space w = true -> tokens (w ++ s) = tokens s.
Proof.
  induction w as [| c w IH]; intros s Hw; [reflexivity |].
  cbn [all_space] in Hw. apply andb_prop in Hw. destruct Hw as [Hc Hw].
  cbn [String.append]. unfold tokens. cbn [split_on]. rewrite Hc. cbn [filter nonempty].
  apply IH. exact Hw.
Qed.

Lemma tokens_all_space : forall w, all_space w = true -> tokens w = [].
Proof.
  intros w Hw. change w with (EmptyString ++ w)%string.
  rewrite tokens_trailing_space by exact Hw. reflexivity.
Qed.

Lemma drop_last_snoc_empty :
  forall l, l <> [] -> drop_last_if_empty (l ++ [EmptyString]) = l.
Proof.
  induction l as [| a l IH]; intros Hne; [contradiction |].
  destruct l as [| b l]; [reflexivity |].
  change (drop_last_if_empty ((a :: b :: l) ++ [EmptyString]))
    with (a :: drop_last_if_empty ((b :: l) ++ [EmptyString])).
  rewrite IH by discriminate. reflexivity.
Qed.

Lemma drop_last_nonempty :
  forall init p, nonempty p = true -> drop_last_if_empty (init ++ [p]) = (init ++ [p])%list.
Proof.
  induction init as [| a init IH]; intros p Hp.
  - cbn. rewrite Hp. reflexivity.
  - cbn [app]. specialize (IH p Hp).
    destruct (init ++ [p])%list as [| b l] eqn:E;
      [destruct init; discriminate |].
    change (drop_last_if_empty (a :: b :: l))
      with (a :: drop_last_if_empty (b :: l)).
    rewrite IH. reflexivity.
Qed.

Lemma split_on_last_piece :
  forall sep s c,
    last_char s = Some c -> sep c = false ->
    exists init p, split_on sep s = (init ++ [p])%list /\ nonempty p = true.
Proof.
  intros sep. induction s as [| d s IH]; intros c Hl Hc; [discriminate |].
  destruct s as [| e s].
  - cbn in Hl. injection Hl as ->. cbn [split_on]. rewrite Hc.
    exists [], (String c EmptyString). split; reflexivity.
  - change (last_char (String d (String e s))) with (last_char (String e s)) in Hl.
    destruct (IH c Hl Hc) as [init [p [E Hp]]].
    cbn [split_on] in E |- *. destruct (sep d).
    + exists (EmptyString :: init), p. rewrite E. split; [reflexivity | exact Hp].
    + rewrite E. destruct init as [| q init].
      * exists [], (String d p). split; reflexivity.
      * exists (String d q :: init), p. split; [reflexivity | exact Hp].
Qed.

(** A newline after the last line changes nothing. *)
Lemma getlines_final_newline :
  forall text,
    ends_inside_a_line text -> getlines (text ++ newline) = getlines text.
Proof.
  intros text [c [Hl Hc]]. unfold getlines, newline.
  rewrite split_on_trailing by reflexivity. cbn [String.length repeat].
  rewrite drop_last_snoc_empty by apply split_on_not_nil.
  destruct (split_on_last_piece is_newline text c Hl Hc) as [init [p [E Hp]]].
  rewrite E, drop_last_nonempty by exact Hp. reflexivity.
Qed.

(** X5: the newline after the last line is optional: a text that ends
    in the middle of a line loads as the same text with a newline
    added. *)
Theorem final_newline_is_optional :
  forall num_get vec3_default text,
    ends_inside_a_line text ->
    loadOBJ num_get vec3_default (text ++ newline) = loadOBJ num_get vec3_default text.
Proof.
  intros num_get vec3_default text H. unfold loadOBJ.
  rewrite getlines_final_newline by exact H. reflexivity.
Qed.

Lemma final_newline_is_optional_witness :
  loadOBJ integer_get vec3_zero ("v 1 0 0" ++ newline)
  = loadOBJ integer_get vec3_zero "v 1 0 0".
Proof.
  apply (final_newline_is_optional integer_get vec3_zero "v 1 0 0").
  exists "0"%char. split; reflexivity.
Defined.

Lemma substring_app_short :
  forall a w n k,
    (n + k <= String.length a)%nat -> substring n k (a ++ w) = substring n k a.
Proof.
  induction a as [| c a IH]; intros w n k H.
  - cbn [String.length] in H. assert (n = 0%nat) by lia. assert (k = 0%nat) by lia.
    subst. cbn. destruct w; reflexivity.
  - cbn [String.length] in H. cbn [String.append].
    destruct n as [| n].
    + destruct k as [| k]; [reflexivity |].
      cbn [substring]. rewrite IH by lia. reflexivity.
    + cbn [substring]. apply IH. lia.
Qed.

Lemma payload_app :
  forall a w k,
    (k <= String.length a)%nat -> payload k (a ++ w) = (payload k a ++ w)%string.
Proof.
  unfold payload. induction a as [| c a IH]; intros w k H.
  - cbn [String.length] in H. assert (k = 0%nat) by lia. subst.
    cbn [String.append String.length substring]. rewrite Nat.sub_0_r.
    rewrite substring_whole by lia. reflexivity.
  - destruct k as [| k].
    + rewrite !Nat.sub_0_r, !substring_whole by lia. reflexivity.
    + cbn [String.length] in H.
      cbn [String.append String.length Nat.sub substring]. apply IH. lia.
Qed.

(** X6: white space at the end of a face line, such as the carriage
    return of a file with CR-LF line ends, is not seen. *)
Theorem trailing_white_space_on_a_face_line :
  forall num_get vec3_default line w st,
    is_f_line line = true ->
    all_space w = true ->
    size (line ++ w) < size_t_modulus ->
    do_line num_get vec3_default (line ++ w) st = do_line num_get vec3_default line st.
Proof.
  intros num_get vec3_default line w st Hf Hw Hsz.
  pose proof (f_line_long line Hf) as Hlong.
  assert (Hf' : is_f_line (line ++ w) = true).
  { unfold is_f_line in *. rewrite substring_app_short by (cbn; lia). exact Hf. }
  assert (Hsz' : size line < size_t_modulus).
  { unfold size in *. rewrite append_length in Hsz. lia. }
  rewrite !do_line_f by assumption.
  change 2 with (Z.of_nat 2). rewrite !rest_after_payload by assumption.
  rewrite payload_app by exact Hlong. unfold face_line.
  rewrite tokens_trailing_space by exact Hw. reflexivity.
Qed.

Lemma trailing_white_space_on_a_face_line_witness :
  do_line integer_get vec3_zero
          ("f 1//1 2//1 3//1" ++ String (ascii_of_nat 13) EmptyString)
          (mkloader empty_mesh [] [n3])
  = do_line integer_get vec3_zero "f 1//1 2//1 3//1" (mkloader empty_mesh [] [n3]).
Proof.
  apply (trailing_white_space_on_a_face_line integer_get vec3_zero "f 1//1 2//1 3//1"
           (String (ascii_of_nat 13) EmptyString)); reflexivity.
Defined.

(* ================================================================== *)
(** * Faces that stop the loader, and files read by parts *)

(** X7: a face line with nothing but white space after [f ] stops the
    loader at the unchecked read of [faceVerts[0]], whatever follows
    in the file. *)
Theorem face_line_without_corners :
  forall num_get vec3_default line more st,
    is_f_line line = true ->
    all_space (rest_after 2 line) = true ->
    do_lines num_get vec3_default (line :: more) st = Undefined oob_faceVerts.
Proof.
  intros num_get vec3_default line more st Hf Hs.
  cbn [do_lines]. rewrite do_line_f by exact Hf.
  rewrite face_without_corners by (apply tokens_all_space; exact Hs). reflexivity.
Qed.

Lemma face_line_without_corners_witness :
  do_lines integer_get vec3_zero ["f  "; "v 1 0 0"]%string initial_loader
  = Undefined oob_faceVerts.
Proof.
  apply (face_line_without_corners integer_get vec3_zero "f  " ["v 1 0 0"%string]);
    reflexivity.
Defined.

Lemma first_invalid_normal :
  forall tn fn,
    ~ first_three_valid tn fn ->
    exists j, (j < 3)%nat /\ ~ valid_normal tn (nth j fn 0).
Proof.
  intros tn fn Hbad. unfold valid_normal in *.
  destruct (Z_le_dec 0 (nth 0 fn 0)), (Z_lt_dec (nth 0 fn 0) (vsize tn));
    try (exists 0%nat; split; [lia | lia]).
  destruct (Z_le_dec 0 (nth 1 fn 0)), (Z_lt_dec (nth 1 fn 0) (vsize tn));
    try (exists 1%nat; split; [lia | lia]).
  destruct (Z_le_dec 0 (nth 2 fn 0)), (Z_lt_dec (nth 2 fn 0) (vsize tn));
    try (exists 2%nat; split; [lia | lia]).
  exfalso. apply Hbad. intros j Hj. unfold valid_normal.
  destruct j as [| [| [| j]]]; lia.
Qed.

(** X8: on a face of three or more corners one of whose first three
    normal indices is not staged at that point (the [vn] line comes
    later, or not at all), the first round of the triangulation loop
    indexes [tempNormals] outside its bounds (line 118): for some
    [j < 3] the read [tempNormals[faceNormals[j]]] is out of range.
    Nothing checks it and nothing is thrown; C++ gives the run no meaning
    from there on, so that the program may as well stop as read what lies
    behind the vector and go on to return a mesh.  The model ends the run
    at that read. *)
Theorem face_before_its_normals :
  forall num_get vec3_default line st faceVerts faceNormals,
    is_f_line line = true ->
    read_corners (tokens (rest_after 2 line)) [] [] = Ok (faceVerts, faceNormals) ->
    (3 <= List.length faceVerts)%nat ->
    ~ first_three_valid (tempNormals st) faceNormals ->
    (exists j,
        (j < 3)%nat
        /\ ~ valid_normal (tempNormals st) (nth j faceNormals 0)
        /\ at_ oob_tempNormals (tempNormals st) (nth j faceNormals 0)
           = Undefined oob_tempNormals)
    /\ do_line num_get vec3_default line st = Undefined oob_tempNormals.
Proof.
  intros num_get vec3_default line st fv fn Hf Hc H3 Hbad.
  destruct (read_corners_length _ _ _ _ _ Hc) as [Hfv Hfn]. cbn [List.length] in Hfv, Hfn.
  pose proof (rest_after_tokens_fit 2 line) as Hfit.
  split.
  - destruct (first_invalid_normal _ _ Hbad) as [j [Hj Hinv]].
    exists j. split; [exact Hj |]. split; [exact Hinv |].
    apply at_out_of_range. unfold valid_normal in Hinv. lia.
  - rewrite do_line_f by exact Hf. unfold face_line. rewrite Hc. cbn [bind].
    rewrite triangulate_bad_normal by (unfold vsize; auto; lia). reflexivity.
Qed.

(** One normal is staged and the second corner names the second. *)
Lemma face_before_its_normals_witness :
  (exists j,
      (j < 3)%nat
      /\ ~ valid_normal [n3] (nth j [0; 1; 0] 0)
      /\ at_ oob_tempNormals [n3] (nth j [0; 1; 0] 0) = Undefined oob_tempNormals)
  /\ do_line integer_get vec3_zero "f 1//1 2//2 3//1" (mkloader empty_mesh [] [n3])
     = Undefined oob_tempNormals.
Proof.
  apply (face_before_its_normals integer_get vec3_zero "f 1//1 2//2 3//1"
           (mkloader empty_mesh [] [n3]) [0; 1; 2] [0; 1; 0]).
  - reflexivity.
  - reflexivity.
  - cbn; lia.
  - intros H. specialize (H 1%nat ltac:(lia)). unfold valid_normal, vsize in H.
    cbn in H. lia.
Defined.

(** X9: a face of [n >= 3] corners whose first three normal indices are
    staged appends, for each of its [n - 2] triangles, the same nine
    floats: the normals of the corners 0, 1 and 2 of the face. *)
Theorem every_triangle_gets_the_first_three_normals :
  forall rest st faceVerts faceNormals,
    read_corners (tokens rest) [] [] = Ok (faceVerts, faceNormals) ->
    (3 <= List.length faceVerts)%nat ->
    vsize faceVerts < size_t_modulus ->
    first_three_valid (tempNormals st) faceNormals ->
    exists m',
      face_line rest st = Ok (mkloader m' (tempVertices st) (tempNormals st))
      /\ normals m'
         = (normals (mesh st)
            ++ List.concat (repeat (face_normals (tempNormals st) faceNormals)
                                   (List.length faceVerts - 2)))%list.
Proof.
  intros rest st fv fn Hc H3 Hsz Hval.
  destruct (read_corners_length _ _ _ _ _ Hc) as [Hfv Hfn].
  unfold face_line. rewrite Hc. cbn [bind].
  rewrite triangulate_polygon by (try assumption; lia). cbn [bind].
  eexists. split; reflexivity.
Qed.

Lemma every_triangle_gets_the_first_three_normals_witness :
  exists m',
    face_line "1//1 2//2 3//3 4//4" (mkloader empty_mesh [] [n1; n2; n3; n4])
    = Ok (mkloader m' [] [n1; n2; n3; n4])
    /\ normals m' = flat_map flatten [n1; n2; n3; n1; n2; n3].
Proof.
  apply (every_triangle_gets_the_first_three_normals "1//1 2//2 3//3 4//4"
           (mkloader empty_mesh [] [n1; n2; n3; n4]) [0; 1; 2; 3] [0; 1; 2; 3]).
  - reflexivity.
  - cbn; lia.
  - reflexivity.
  - intros j Hj. unfold valid_normal, vsize.
    destruct j as [| [| [| j]]]; cbn; lia.
Defined.

(** X10: the loader works through the file from the top.  When a file
    loads, each of its beginnings loads as well, and the positions,
    normals and indices of the beginning open those of the whole file;
    when a beginning fails, the file fails in the same way. *)
Theorem loading_is_incremental :
  forall num_get vec3_default pre post,
    (forall m,
        load_lines num_get vec3_default (pre ++ post) = Ok m ->
        exists m0,
          load_lines num_get vec3_default pre = Ok m0
          /\ extends (vertices m0) (vertices m)
          /\ extends (normals m0) (normals m)
          /\ extends (indices m0) (indices m))
    /\ (forall e,
           load_lines num_get vec3_default pre = Throw e ->
           load_lines num_get vec3_default (pre ++ post) = Throw e)
    /\ (forall u,
           load_lines num_get vec3_default pre = Undefined u ->
           load_lines num_get vec3_default (pre ++ post) = Undefined u).
Proof.
  intros num_get vec3_default pre post. unfold load_lines. rewrite do_lines_app.
  destruct (do_lines num_get vec3_default pre initial_loader) as [st0 | e0 | u0 |] eqn:E0;
    cbn [bind]; (split; [| split]); try discriminate;
    try (intros ? H; injection H as <-; reflexivity).
  intros m H.
  destruct (do_lines num_get vec3_default post st0) as [st | | |] eqn:E;
    cbn [bind] in H; try discriminate.
  injection H as <-.
  destruct (do_lines_trace _ _ _ _ _ E) as [Hv [_ [k [ixs [ns [Hm _]]]]]].
  eexists. split; [reflexivity |].
  rewrite !copy_vertices_spec, Hm, Hv. cbn [vertices normals indices].
  repeat split.
  - eexists. rewrite flat_map_app, app_assoc. reflexivity.
  - eexists. reflexivity.
  - eexists. reflexivity.
Qed.

Lemma loading_is_incremental_witness :
  exists m0,
    load_lines integer_get vec3_zero ["v 0 0 0"; "v 1 0 0"]%string = Ok m0
    /\ extends (vertices m0) (vertices triangle_mesh)
    /\ extends (normals m0) (normals triangle_mesh)
    /\ extends (indices m0) (indices triangle_mesh).
Proof.
  apply (proj1 (loading_is_incremental integer_get vec3_zero
                  ["v 0 0 0"; "v 1 0 0"]%string
                  ["v 0 1 0"; "vn 0 0 1"; "f 1//1 2//1 3//1"]%string)).
  vm_compute. reflexivity.
Defined.

(* ================================================================== *)
(** * The indices of a file *)

Section LoaderIndices.

Variable num_get : string -> float * bool * string.
Variable vec3_default : vec3.

Lemma fan_triangles_short :
  forall (A : Type) (d : A) cs, (List.length cs <= 2)%nat -> fan_triangles d cs = [].
Proof.
  intros A d cs H. unfold fan_triangles.
  replace (List.length cs - 2)%nat with 0%nat by lia. reflexivity.
Qed.

Lemma face_line_indices :
  forall line st st',
    face_line (rest_after 2 line) st = Ok st' ->
    indices (mesh st')
    = (indices (mesh st) ++ flat_map triple (fan_triangles 0 (face_corners line)))%list
    /\ edgeIndices (mesh st') = edgeIndices (mesh st).
Proof.
  intros line st st' H. unfold face_line in H. unfold face_corners.
  destruct (read_corners (tokens (rest_after 2 line)) [] []) as [[fv fn] | | |] eqn:Hc;
    cbn [bind] in H; try discriminate.
  destruct (read_corners_length _ _ _ _ _ Hc) as [Hfv Hfn]. cbn [List.length] in Hfv, Hfn.
  pose proof (rest_after_tokens_fit 2 line) as Hfit.
  destruct (Nat.le_gt_cases 3 (List.length fv)) as [H3 | H3].
  - destruct (first_three_valid_dec (tempNormals st) fn) as [Hval | Hbad].
    + rewrite triangulate_polygon in H by (unfold vsize; auto; lia).
      cbn [bind] in H. injection H as <-. split; reflexivity.
    + rewrite triangulate_bad_normal in H by (unfold vsize; auto; lia). discriminate.
  - destruct fv as [| c fv]; [discriminate |].
    rewrite triangulate_short in H by (cbn [List.length] in *; lia).
    cbn [bind] in H. injection H as <-. cbn [mesh].
    rewrite fan_triangles_short by (cbn [List.length] in *; lia).
    cbn [flat_map]. rewrite app_nil_r. split; reflexivity.
Qed.

Lemma do_lines_indices :
  forall lines st st',
    do_lines num_get vec3_default lines st = Ok st' ->
    indices (mesh st')
    = (indices (mesh st)
       ++ flat_map (fun line => flat_map triple (fan_triangles 0 (face_corners line)))
                   (filter is_f_line lines))%list
    /\ edgeIndices (mesh st') = edgeIndices (mesh st).
Proof.
  induction lines as [| line lines IH]; intros st st' H.
  - cbn in H. injection H as <-. cbn. rewrite app_nil_r. split; reflexivity.
  - cbn [do_lines] in H.
    destruct (do_line num_get vec3_default line st) as [st1 | | |] eqn:E;
      cbn [bind] in H; try discriminate.
    destruct (IH _ _ H) as [Hi He]. rewrite Hi, He. cbn [filter].
    destruct (is_f_line line) eqn:Hf.
    + rewrite do_line_f in E by exact Hf.
      destruct (face_line_indices _ _ _ E) as [Hi1 He1]. rewrite Hi1, He1.
      cbn [flat_map]. rewrite <- !app_assoc. split; reflexivity.
    + assert (Hm : mesh st1 = mesh st).
      { destruct (is_v_line line) eqn:Hv;
          [rewrite do_line_v in E by exact Hv; injection E as <-; reflexivity |].
        destruct (is_vn_line line) eqn:Hvn;
          [rewrite do_line_vn in E by exact Hvn; injection E as <-; reflexivity |].
        rewrite do_line_other in E by assumption. injection E as <-. reflexivity. }
      rewrite Hm. split; reflexivity.
Qed.

End LoaderIndices.

(** X11: the indices of a loaded mesh are the fans of its face lines
    one after the other, in the order of the file, and nothing else; the
    list [edgeIndices] stays empty. *)
Theorem indices_are_the_fans_in_file_order :
  forall num_get vec3_default lines m,
    load_lines num_get vec3_default lines = Ok m ->
    indices m
    = flat_map (fun line => flat_map triple (fan_triangles 0 (face_corners line)))
               (filter is_f_line lines)
    /\ edgeIndices m = [].
Proof.
  intros num_get vec3_default lines m H. unfold load_lines in H.
  destruct (do_lines num_get vec3_default lines initial_loader) as [st | | |] eqn:E;
    cbn [bind] in H; try discriminate.
  injection H as <-. rewrite !copy_vertices_spec. cbn [indices edgeIndices].
  destruct (do_lines_indices _ _ _ _ _ E) as [Hi He]. rewrite Hi, He.
  split; reflexivity.
Qed.

Lemma indices_are_the_fans_in_file_order_witness :
  indices triangle_mesh
  = flat_map (fun line => flat_map triple (fan_triangles 0 (face_corners line)))
             (filter is_f_line
                ["v 0 0 0"; "v 1 0 0"; "v 0 1 0"; "vn 0 0 1"; "f 1//1 2//1 3//1"]%string)
  /\ edgeIndices triangle_mesh = [].
Proof.
  apply (indices_are_the_fans_in_file_order integer_get vec3_zero
           ["v 0 0 0"; "v 1 0 0"; "v 0 1 0"; "vn 0 0 1"; "f 1//1 2//1 3//1"]%string
           triangle_mesh).
  vm_compute. reflexivity.
Defined.



(* ================================================================== *)
(** * Vectors with missing coordinates *)

Lemma skip_ws_all_space : forall s, all_space s = true -> skip_ws s = EmptyString.
Proof.
  induction s as [| c s IH]; intros H; [reflexivity |].
  cbn [all_space] in H. apply andb_prop in H. destruct H as [Hc H].
  cbn [skip_ws]. rewrite Hc. apply IH. exact H.
Qed.

(** X12: the coordinates that a [v] or [vn] line does not give keep the
    values of the default-constructed vector: all three on a blank
    payload, the second and the third when the first conversion fails or
    when nothing but white space follows the first number. *)
Theorem missing_coordinates_keep_defaults :
  forall num_get vec3_default text,
    (all_space text = true -> read_vec3 num_get vec3_default text = vec3_default)
    /\ (forall vx rest,
           skip_ws text <> EmptyString ->
           num_get (skip_ws text) = (vx, true, rest) ->
           read_vec3 num_get vec3_default text
           = mkvec3 vx (y vec3_default) (z vec3_default))
    /\ (forall vx rest,
           skip_ws text <> EmptyString ->
           num_get (skip_ws text) = (vx, false, rest) ->
           all_space rest = true ->
           read_vec3 num_get vec3_default text
           = mkvec3 vx (y vec3_default) (z vec3_default)).
Proof.
  intros num_get vec3_default text. split; [| split].
  - intros H. unfold read_vec3, extract_float. cbn [failbit buf].
    rewrite skip_ws_all_space by exact H. cbn [failbit].
    destruct vec3_default; reflexivity.
  - intros vx rest Hne Hget. unfold read_vec3, extract_float. cbn [failbit buf].
    destruct (skip_ws text) as [| c s] eqn:E; [contradiction |].
    rewrite Hget. cbn [failbit]. reflexivity.
  - intros vx rest Hne Hget Hrest. unfold read_vec3, extract_float. cbn [failbit buf].
    destruct (skip_ws text) as [| c s] eqn:E; [contradiction |].
    rewrite Hget. cbn [failbit buf]. rewrite skip_ws_all_space by exact Hrest.
    cbn [failbit]. reflexivity.
Qed.

Lemma missing_coordinates_keep_defaults_witness :
  read_vec3 integer_get vec3_zero "  " = vec3_zero
  /\ read_vec3 integer_get vec3_zero "x 1 2" = mkvec3 f0 f0 f0
  /\ read_vec3 integer_get vec3_zero "1 " = mkvec3 f1 f0 f0.
Proof.
  split; [| split].
  - apply (proj1 (missing_coordinates_keep_defaults integer_get vec3_zero "  ")).
    reflexivity.
  - apply (proj1 (proj2 (missing_coordinates_keep_defaults integer_get vec3_zero "x 1 2"))
             f0 "x 1 2"%string); [discriminate | reflexivity].
  - apply (proj2 (proj2 (missing_coordinates_keep_defaults integer_get vec3_zero "1 "))
             f1 " "%string); [discriminate | reflexivity | reflexivity].
Defined.

(* ================================================================== *)
(** * Corner tokens as decimal numbers *)

Lemma digit_char_facts :
  forall d s,
    (d < 10)%nat ->
    digit_of (digit_char d) = Some (Z.of_nat d)
    /\ isspace (digit_char d) = false
    /\ Ascii.eqb (digit_char d) "/" = false
    /\ read_sign (String (digit_char d) s) = (false, String (digit_char d) s).
Proof.
  intros d s H.
  do 10 (destruct d as [| d]; [repeat split; reflexivity |]). lia.
Qed.

Lemma read_digits_numeral :
  forall ds acc,
    forallb (fun d => Nat.ltb d 10) ds = true ->
    read_digits (Some acc) (numeral ds)
    = (Some (fold_left (fun a d => 10 * a + Z.of_nat d) ds acc), EmptyString).
Proof.
  induction ds as [| d ds IH]; intros acc H; [reflexivity |].
  cbn [forallb] in H. apply andb_prop in H. destruct H as [Hd H].
  apply Nat.ltb_lt in Hd.
  destruct (digit_char_facts d EmptyString Hd) as [Hdig _].
  cbn [numeral read_digits fold_left]. rewrite Hdig. apply IH. exact H.
Qed.

(** [std::stoul] on a decimal numeral gives its value. *)
Lemma stoul_numeral :
  forall ds,
    decimal ds = true -> numeral_value ds < ulong_modulus ->
    stoul (numeral ds) = Ok (numeral_value ds).
Proof.
  intros ds Hdec Hv. unfold decimal in Hdec. apply andb_prop in Hdec.
  destruct Hdec as [Hne Hall]. destruct ds as [| d ds]; [discriminate |].
  pose proof Hall as Hall'. cbn [forallb] in Hall'. apply andb_prop in Hall'.
  destruct Hall' as [Hd Hds]. apply Nat.ltb_lt in Hd.
  destruct (digit_char_facts d (numeral ds) Hd) as [Hdig [Hsp [_ Hsign]]].
  unfold stoul. cbn [numeral skip_ws]. rewrite Hsp, Hsign.
  cbn [read_digits]. rewrite Hdig, read_digits_numeral by exact Hds. cbn [fst].
  unfold numeral_value in *. cbn [fold_left] in Hv |- *.
  destruct (Z.leb_spec ulong_modulus
              (fold_left (fun a d0 => 10 * a + Z.of_nat d0) ds (10 * 0 + Z.of_nat d)));
    [lia | reflexivity].
Qed.

Lemma numeral_no_slash :
  forall ds, forallb (fun d => Nat.ltb d 10) ds = true -> find_char "/" (numeral ds) = None.
Proof.
  induction ds as [| d ds IH]; intros H; [reflexivity |].
  cbn [forallb] in H. apply andb_prop in H. destruct H as [Hd H].
  apply Nat.ltb_lt in Hd.
  destruct (digit_char_facts d EmptyString Hd) as [_ [_ [Hs _]]].
  cbn [numeral find_char]. rewrite Hs, IH by exact H. reflexivity.
Qed.

Lemma append_assoc :
  forall a b c : string, ((a ++ b) ++ c = a ++ (b ++ c))%string.
Proof.
  induction a as [| ch a IH]; intros b c; [reflexivity |].
  cbn [String.append]. rewrite IH. reflexivity.
Qed.

(** The fields of a corner token: the text before the first slash and
    the text after the second are converted, the text between them is
    not looked at. *)
Lemma read_corner_fields :
  forall a t b,
    find_char "/" a = None -> find_char "/" t = None ->
    size (corner_token a t b) < size_t_modulus ->
    read_corner (corner_token a t b)
    = (r1 <- stoul a ;;
       r2 <- stoul b ;;
       Ok (to_uint (to_ulong (r1 - 1)), to_uint (to_ulong (r2 - 1)))).
Proof.
  intros a t b Ha Ht Hsz.
  set (tok := corner_token a t b) in *.
  assert (Hlen : String.length tok
                 = (String.length a + S (String.length t + S (String.length b)))%nat).
  { unfold tok, corner_token. rewrite append_length. cbn [String.length].
    rewrite append_length. reflexivity. }
  unfold size in Hsz. rewrite size_t_modulus_val in Hsz.
  assert (Hp1 : find tok "/" 0 = Z.of_nat (String.length a)).
  { unfold find, size.
    destruct (Z.leb_spec (Z.of_nat (String.length tok)) 0) as [Hle | _]; [lia |].
    change (Z.to_nat 0) with 0%nat. rewrite substring_whole by lia.
    unfold tok, corner_token. rewrite find_char_app_hit by exact Ha. lia. }
  assert (Htok : tok = ((a ++ String "/" EmptyString) ++ (t ++ String "/" b))%string).
  { unfold tok, corner_token. rewrite append_assoc. reflexivity. }
  assert (Hp2 : find tok "/" (Z.of_nat (String.length a) + 1)
                = Z.of_nat (String.length a) + 1 + Z.of_nat (String.length t)).
  { unfold find, size.
    destruct (Z.leb_spec (Z.of_nat (String.length tok))
                (Z.of_nat (String.length a) + 1)) as [Hle | _]; [lia |].
    replace (Z.to_nat (Z.of_nat (String.length a) + 1))
      with (String.length (a ++ String "/" EmptyString) + 0)%nat
      by (rewrite append_length; cbn [String.length]; lia).
    rewrite Htok at 2.
    rewrite substring_app_skip.
    rewrite substring_whole
      by (rewrite Hlen, append_length; cbn [String.length]; lia).
    rewrite find_char_app_hit by exact Ht. reflexivity. }
  unfold read_corner. rewrite Hp1.
  rewrite (to_size_t_small (Z.of_nat (String.length a) + 1))
    by (rewrite size_t_modulus_val; lia).
  rewrite Hp2.
  rewrite substr_prefix by lia. rewrite Nat2Z.id.
  unfold tok at 1, corner_token. rewrite substring_app_prefix.
  cbn [bind]. destruct (stoul a) as [r1 | e | u |]; cbn [bind]; try reflexivity.
  rewrite to_size_t_small by (rewrite size_t_modulus_val; lia).
  replace (Z.of_nat (String.length a) + 1 + Z.of_nat (String.length t) + 1)
    with (Z.of_nat (String.length a + S (String.length t + 1))) by lia.
  rewrite substr_rest by lia. cbn [bind].
  assert (Hrest : rest_after (Z.of_nat (String.length a + S (String.length t + 1))) tok = b).
  { unfold rest_after, size. rewrite Nat2Z.id.
    replace (Z.to_nat (Z.min npos (Z.of_nat (String.length tok)
               - Z.of_nat (String.length a + S (String.length t + 1)))))
      with (String.length b) by (unfold npos; rewrite size_t_modulus_val; lia).
    replace tok with ((a ++ String "/" (t ++ String "/" EmptyString)) ++ b)%string.
    2:{ unfold tok, corner_token. rewrite append_assoc. cbn [String.append].
        rewrite append_assoc. reflexivity. }
    replace (String.length a + S (String.length t + 1))%nat
      with (String.length (a ++ String "/" (t ++ String "/" EmptyString)) + 0)%nat
      by (rewrite append_length; cbn [String.length]; rewrite append_length;
          cbn [String.length]; lia).
    rewrite substring_app_skip. apply substring_whole. lia. }
  rewrite Hrest. reflexivity.
Qed.

Lemma to_uint_to_ulong : forall n, to_uint (to_ulong n) = to_uint n.
Proof.
  intros n. unfold to_uint, to_ulong. apply Z.mod_mod_divide.
  exists (2 ^ 32). reflexivity.
Qed.

(** X13: corner indices are one-based decimal numbers.  A token
    [a/t/b] whose first and third fields are decimal numerals below
    [2^64] gives the position index [a - 1] and the normal index [b - 1]
    as [unsigned int], so that the index 0 becomes [2^32 - 1]; the text
    [t] between the slashes is not looked at. *)
Theorem corner_indices_are_one_based :
  forall a t b,
    decimal a = true -> decimal b = true ->
    numeral_value a < ulong_modulus -> numeral_value b < ulong_modulus ->
    find_char "/" t = None ->
    size (corner_token (numeral a) t (numeral b)) < size_t_modulus ->
    read_corner (corner_token (numeral a) t (numeral b))
    = Ok (to_uint (numeral_value a - 1), to_uint (numeral_value b - 1)).
Proof.
  intros a t b Ha Hb Hva Hvb Ht Hsz.
  rewrite read_corner_fields; [| | exact Ht | exact Hsz].
  - rewrite !stoul_numeral by assumption. cbn [bind].
    rewrite !to_uint_to_ulong. reflexivity.
  - apply numeral_no_slash. unfold decimal in Ha. apply andb_prop in Ha. apply Ha.
Qed.

Lemma corner_indices_are_one_based_witness :
  read_corner (corner_token (numeral [1; 2]%nat) "7x" (numeral [0]%nat))
  = Ok (to_uint (numeral_value [1; 2]%nat - 1), to_uint (numeral_value [0]%nat - 1)).
Proof.
  apply (corner_indices_are_one_based [1; 2]%nat "7x" [0]%nat); reflexivity.
Defined.

(* ================================================================== *)
(** * The order of floats *)

Lemma fleb_trans :
  forall a b c, fleb a b = true -> fleb b c = true -> fleb a c = true.
Proof.
  intros a b c.
  destruct a as [sa | sa | | sa ma ea], b as [sb | sb | | sb mb eb],
           c as [sc | sc | | sc mc ec];
    try destruct sa; try destruct sb; try destruct sc;
    unfold fleb, SFleb; cbv beta iota delta [SFcompare];
    try (intros; reflexivity); try (intros; discriminate).
  - rewrite !Pos.compare_cont_spec. cbn [Pos.switch_Eq].
    destruct (Z.compare_spec ea eb), (Z.compare_spec eb ec), (Z.compare_spec ea ec);
      try (intros; reflexivity); try (intros; discriminate); try lia.
    destruct (Pos.compare_spec ma mb), (Pos.compare_spec mb mc), (Pos.compare_spec ma mc);
      cbn [CompOpp]; try (intros; reflexivity); try (intros; discriminate); lia.
  - rewrite !Pos.compare_cont_spec. cbn [Pos.switch_Eq].
    destruct (Z.compare_spec ea eb), (Z.compare_spec eb ec), (Z.compare_spec ea ec);
      try (intros; reflexivity); try (intros; discriminate); try lia.
    destruct (Pos.compare_spec ma mb), (Pos.compare_spec mb mc), (Pos.compare_spec ma mc);
      cbn [CompOpp]; try (intros; reflexivity); try (intros; discriminate); lia.
Qed.

Lemma fltb_fleb_contra :
  forall a b, fltb a b = true -> fleb b a = true -> False.
Proof.
  intros a b H1 H2. unfold fltb, fleb, SFltb, SFleb in *.
  destruct (SFcompare a b) as [c |] eqn:E; [| discriminate].
  rewrite (SFcompare_antisym _ _ _ E) in H2. destruct c; discriminate.
Qed.

(** A binary32 float within the two bounds is a normal number. *)
Lemma in_range_normal :
  forall d,
    in_range d = true -> valid_binary prec emax d = true ->
    exists m e,
      d = S754_finite false m e
      /\ 2 ^ 23 <= Zpos m < 2 ^ 24 /\ -149 <= e <= 104.
Proof.
  intros d Hin Hv.
  destruct (in_range_positive_finite d Hin) as [m [e ->]].
  exists m, e. split; [reflexivity |].
  cbn [valid_binary] in Hv. unfold bounded, canonical_mantissa in Hv.
  apply andb_prop in Hv. destruct Hv as [Hc He].
  apply Z.eqb_eq in Hc. apply Z.leb_le in He. rewrite fexp_value in Hc.
  change (emax - prec) with 104 in He.
  pose proof (digits2_pos_bounds m) as Hd.
  destruct (Z_le_gt_dec (-149) (Zpos (digits2_pos m) + e - 24)) as [Hn | Hs].
  - assert (Hdig : Zpos (digits2_pos m) = 24) by lia.
    rewrite Hdig in Hd. change (24 - 1) with 23 in Hd. lia.
  - exfalso. assert (He' : e = -149) by lia.
    unfold in_range in Hin. apply andb_prop in Hin. destruct Hin as [Hlo _].
    unfold fleb, SFleb, minDistance in Hlo. cbv beta iota delta [SFcompare] in Hlo.
    destruct (Z.compare_spec (-23) e); first [lia | discriminate].
Qed.

(* ================================================================== *)
(** * The zoom keys *)

Lemma zoom_in_not_above :
  forall keys deltaTime d,
    key_Q keys = true -> key_E keys = false -> fleb f0 deltaTime = true ->
    in_range d = true -> valid_binary prec emax d = true ->
    fleb (zoom keys deltaTime d) d = true.
Proof.
  intros keys dt d HQ HE Hdt Hin Hv.
  destruct (in_range_normal d Hin Hv) as [m [e [-> [Hm He]]]].
  unfold zoom. rewrite HQ, HE.
  apply (fsub_nonneg_below m e); [lia | exact He | apply zoom_step_nonneg; exact Hdt].
Qed.

Lemma zoom_out_not_below :
  forall keys deltaTime d,
    key_Q keys = false -> key_E keys = true -> fleb f0 deltaTime = true ->
    in_range d = true -> valid_binary prec emax d = true ->
    fleb d (zoom keys deltaTime d) = true.
Proof.
  intros keys dt d HQ HE Hdt Hin Hv.
  destruct (in_range_normal d Hin Hv) as [m [e [-> [Hm He]]]].
  unfold zoom. rewrite HQ, HE.
  apply (fadd_nonneg_above m e); [exact He | lia | apply zoom_step_nonneg; exact Hdt].
Qed.

(** X14: on a distance within the bounds and an elapsed time that is
    not negative, the zoom-in key alone never increases the distance and
    the zoom-out key alone never decreases it, rounding and clamp
    included. *)
Theorem zoom_keys_keep_their_direction :
  forall keys deltaTime c,
    fleb f0 deltaTime = true ->
    in_range (cameraDistance c) = true ->
    valid_binary prec emax (cameraDistance c) = true ->
    (key_Q keys = true -> key_E keys = false ->
     fleb (cameraDistance (update_camera keys deltaTime c)) (cameraDistance c) = true)
    /\ (key_Q keys = false -> key_E keys = true ->
        fleb (cameraDistance c) (cameraDistance (update_camera keys deltaTime c)) = true).
Proof.
  intros keys dt c Hdt Hin Hv. cbn [update_camera cameraDistance].
  set (d := cameraDistance c) in *.
  pose proof Hin as Hin'. unfold in_range in Hin'. apply andb_prop in Hin'.
  destruct Hin' as [Hlo Hhi].
  split; intros HQ HE.
  - pose proof (zoom_in_not_above keys dt d HQ HE Hdt Hin Hv) as Ht.
    set (t := zoom keys dt d) in *.
    destruct (fltb t minDistance) eqn:H1; [rewrite clamp_below by exact H1; exact Hlo |].
    destruct (fltb maxDistance t) eqn:H2.
    + exfalso. apply (fltb_fleb_contra _ _ H2). apply (fleb_trans t d maxDistance); assumption.
    + rewrite clamp_within by assumption. exact Ht.
  - pose proof (zoom_out_not_below keys dt d HQ HE Hdt Hin Hv) as Ht.
    set (t := zoom keys dt d) in *.
    destruct (fltb t minDistance) eqn:H1.
    + exfalso. apply (fltb_fleb_contra _ _ H1). apply (fleb_trans minDistance d t); assumption.
    + destruct (fltb maxDistance t) eqn:H2; [rewrite clamp_above by exact H2; exact Hhi |].
      rewrite clamp_within by assumption. exact Ht.
Qed.

Lemma zoom_keys_keep_their_direction_witness :
  fleb (cameraDistance (update_camera zoom_in_key a_frame_time initial_camera))
       (cameraDistance initial_camera) = true
  /\ fleb (cameraDistance initial_camera)
          (cameraDistance (update_camera zoom_out_key a_frame_time initial_camera)) = true.
Proof.
  split.
  - apply (proj1 (zoom_keys_keep_their_direction zoom_in_key a_frame_time initial_camera
                    eq_refl eq_refl eq_refl)); reflexivity.
  - apply (proj2 (zoom_keys_keep_their_direction zoom_out_key a_frame_time initial_camera
                    eq_refl eq_refl eq_refl)); reflexivity.
Defined.

(* ================================================================== *)
(** * A distance that is not a number *)

Lemma zoom_nan :
  forall keys deltaTime d, is_nan d = true -> is_nan (zoom keys deltaTime d) = true.
Proof.
  intros keys dt d H. destruct d; try discriminate. unfold zoom.
  destruct (key_Q keys), (key_E keys); reflexivity.
Qed.

Lemma clamp_keeps_nan :
  forall v, is_nan v = true -> is_nan (glm_clamp v minDistance maxDistance) = true.
Proof. intros v H. destruct v; try discriminate. reflexivity. Qed.

(** X15: a distance that has become a NaN stays one: no key and no
    elapsed time brings it back, the clamp lets it through in every
    frame. *)
Theorem nan_distance_is_permanent :
  forall frames c,
    is_nan (cameraDistance c) = true ->
    is_nan (cameraDistance (run_frames frames c)) = true.
Proof.
  induction frames as [| [keys dt] frames IH]; intros c H; [exact H |].
  cbn [run_frames]. apply IH. cbn [update_camera cameraDistance].
  apply clamp_keeps_nan, zoom_nan. exact H.
Qed.

Lemma nan_distance_is_permanent_witness :
  is_nan (cameraDistance
            (run_frames [(zoom_in_key, a_frame_time); (zoom_out_key, a_frame_time)]
                        (update_camera all_keys (float_of_Z (2 ^ 126)) initial_camera)))
  = true.
Proof.
  apply (nan_distance_is_permanent
           [(zoom_in_key, a_frame_time); (zoom_out_key, a_frame_time)]
           (update_camera all_keys (float_of_Z (2 ^ 126)) initial_camera)).
  vm_compute. reflexivity.
Defined.

(* ================================================================== *)
(** * No key held *)

Lemma idle_frame :
  forall keys deltaTime c,
    idle keys = true -> in_range (cameraDistance c) = true ->
    update_camera keys deltaTime c = c.
Proof.
  intros keys dt c Hk Hin. unfold idle in Hk. apply negb_true_iff in Hk.
  repeat (apply orb_false_elim in Hk; destruct Hk as [Hk ?]).
  destruct c as [aY aZ d]. unfold update_camera, rotate, zoom.
  cbn [angleY angleZ cameraDistance] in *.
  repeat match goal with H : _ = false |- _ => rewrite H; clear H end.
  rewrite clamp_within;
    [reflexivity | apply in_range_not_below | apply in_range_not_above]; exact Hin.
Qed.

(** X16: frames in which no control key is held leave a camera whose
    distance is within the bounds as it is, whatever the elapsed times,
    infinite and NaN included. *)
Theorem idle_frames_keep_the_camera :
  forall frames c,
    in_range (cameraDistance c) = true ->
    forallb (fun f => idle (fst f)) frames = true ->
    run_frames frames c = c.
Proof.
  induction frames as [| [keys dt] frames IH]; intros c Hin Hall; [reflexivity |].
  cbn [forallb fst] in Hall. apply andb_prop in Hall. destruct Hall as [Hk Hall].
  cbn [run_frames]. rewrite idle_frame by assumption. apply IH; assumption.
Qed.

Lemma idle_frames_keep_the_camera_witness :
  run_frames [(mkKeys false false false false false false, a_frame_time);
              (mkKeys false false false false false false, S754_nan)]
             initial_camera
  = initial_camera.
Proof.
  apply (idle_frames_keep_the_camera
           [(mkKeys false false false false false false, a_frame_time);
            (mkKeys false false false false false false, S754_nan)]
           initial_camera); reflexivity.
Defined.

(* ================================================================== *)
(** * The render loop *)

Lemma main_loop_closed :
  forall inputs s, shouldClose s = true -> main_loop inputs s = s.
Proof.
  intros inputs s H. destruct inputs as [| i more]; [reflexivity |].
  cbn [main_loop]. rewrite H. reflexivity.
Qed.

Lemma main_loop_app :
  forall pre post s, main_loop (pre ++ post) s = main_loop post (main_loop pre s).
Proof.
  induction pre as [| i pre IH]; intros post s; [reflexivity |].
  cbn [app main_loop]. destruct (shouldClose s) eqn:E.
  - rewrite main_loop_closed by exact E. reflexivity.
  - apply IH.
Qed.

(** X17: the pass in which the escape key is seen is carried out to
    its end, the camera moving under the keys held, and it is the last
    one: what the window would have delivered afterwards is not read. *)
Theorem escape_frame_is_the_last :
  forall pre i post s,
    shouldClose (main_loop pre s) = false ->
    key_ESCAPE i = true ->
    main_loop (pre ++ i :: post) s = frame i (main_loop pre s).
Proof.
  intros pre i post s Hopen Hesc. rewrite main_loop_app.
  cbn [main_loop]. rewrite Hopen. apply main_loop_closed.
  cbn [frame shouldClose]. rewrite Hesc. apply orb_true_iff. left.
  apply orb_true_r.
Qed.

Lemma escape_frame_is_the_last_witness :
  main_loop ([mkInput a_frame_time zoom_in_key false false]
             ++ mkInput f1 zoom_in_key true false
                :: [mkInput (float_of_Z 2) zoom_in_key false false])
            initial_loop
  = frame (mkInput f1 zoom_in_key true false)
          (main_loop [mkInput a_frame_time zoom_in_key false false] initial_loop).
Proof.
  apply (escape_frame_is_the_last [mkInput a_frame_time zoom_in_key false false]
           (mkInput f1 zoom_in_key true false)
           [mkInput (float_of_Z 2) zoom_in_key false false] initial_loop);
    reflexivity.
Defined.

Lemma fsub_self : forall t, is_finite t = true -> fsub t t = f0.
Proof.
  intros t H. destruct t as [s | s | | s m e]; try discriminate.
  - destruct s; reflexivity.
  - unfold fsub. cbv beta iota zeta delta [SFsub].
    rewrite Z.sub_diag. reflexivity.
Qed.

Lemma fsub_plus_zero : forall t, fsub t f0 = t.
Proof. intros t. destruct t as [[|] | [|] | | s m e]; reflexivity. Qed.

(** X18: the elapsed time of the first pass is the clock reading
    itself, the time since [glfwInit]; and a pass whose clock reading,
    as a [float], equals the one before it has an elapsed time of [+0.0]
    and leaves the camera as it is, whatever keys are held. *)
Theorem elapsed_time_of_a_frame :
  (forall i, elapsed i initial_loop = clock i)
  /\ (forall i s,
         is_finite (clock i) = true ->
         lastFrameTime s = clock i ->
         in_range (cameraDistance (camera s)) = true ->
         negative_zero (angleY (camera s)) = false ->
         negative_zero (angleZ (camera s)) = false ->
         elapsed i s = f0 /\ camera (frame i s) = camera s).
Proof.
  split.
  - intros i. unfold elapsed, initial_loop. cbn [lastFrameTime]. apply fsub_plus_zero.
  - intros i s Hfin Hlast Hin HY HZ.
    assert (He : elapsed i s = f0)
      by (unfold elapsed; rewrite Hlast; apply fsub_self; exact Hfin).
    split; [exact He |]. unfold frame. cbn [camera]. rewrite He.
    destruct (camera s) as [aY aZ d]. unfold update_camera.
    cbn [angleY angleZ cameraDistance] in *.
    rewrite !rotate_plus_zero by assumption.
    rewrite zoom_zero by (try reflexivity; exact Hin).
    rewrite clamp_within;
      [reflexivity | apply in_range_not_below | apply in_range_not_above]; exact Hin.
Qed.

Lemma elapsed_time_of_a_frame_witness :
  elapsed (mkInput f1 all_keys false false) (mkLoop initial_camera f1 false) = f0
  /\ camera (frame (mkInput f1 all_keys false false) (mkLoop initial_camera f1 false))
     = camera (mkLoop initial_camera f1 false).
Proof.
  apply (proj2 elapsed_time_of_a_frame (mkInput f1 all_keys false false)
           (mkLoop initial_camera f1 false)); reflexivity.
Defined.
